(** * django-ldap-sync: the [syncldap] management command

    A shallow embedding of [ldap_sync/management/commands/syncldap.py]
    (Python 2, Django 1.x) and the properties of its reconciliation
    algorithm.

    - Python dictionaries and sets are stdpp's [gmap] and [gset];
      [d.items()] is [map_to_list d].
    - A [unicode] string is the list of its code points; a Python 2 [str]
      (field names, attribute names, callback paths) is a [string]; a raw
      directory value is a [list byte].
    - The command mutates the database, writes log records and calls hooks:
      a computation is a function of the database that returns the new
      database, the events it emitted in order, and a value or the exception
      that escaped. Side effects made before an exception stay made.
    - The command reads its configuration from [ldap_sync.settings] and
      queries the directory through [ldap_sync.search]; neither module is
      among the sources at hand, so the resolved settings are the record
      [SyncSettings] and the search is a field of [Runtime]. The Python
      runtime's codec and case tables, the database's matching and
      constraints and the hooks named in the settings are fields of
      [Runtime] too: every theorem holds whatever they are. *)

From stdpp Require Import gmap strings list fin_maps.
From Stdlib Require Import Strings.Byte Strings.Ascii NArith.

Local Open Scope string_scope.
Local Open Scope list_scope.

(** ** Python values *)

Abbreviation ustr := (list N).
Abbreviation Fields := (gmap string (list N)).
Abbreviation Attrs := (gmap string (list (list byte))).

(** [uni "abc"] is the unicode literal of an ASCII text, [raw "abc"] the
    bytes of a [str]. *)
Definition uni (s : string) : ustr :=
  (λ c, N_of_ascii c) <$> String.list_ascii_of_string s.

Definition raw (s : string) : list byte := String.list_byte_of_string s.

(** The exceptions that can travel through the command. *)
Inductive Exn :=
| KeyError
| IndexError
| UnicodeDecodeError
| IntegrityError
| DataError
| MultipleObjectsReturned
| DoesNotExist
| ImportError
| LDAPError
| HookError (tag : string).

Inductive DbError := Integrity | Data.

Definition db_exn (e : DbError) : Exn :=
  match e with Integrity => IntegrityError | Data => DataError end.

(** ** The local store *)

Record Row := mkRow {
  pk : nat;
  fields : Fields;
  (** set by [set_unusable_password] *)
  unusable_password : bool
}.

Inductive Table := GroupTable | UserTable.

Record Db := mkDb {
  groups : list Row;
  users : list Row;
  next_pk : nat
}.

Definition table_rows (t : Table) (db : Db) : list Row :=
  match t with GroupTable => groups db | UserTable => users db end.

Definition add_row (t : Table) (r : Row) (db : Db) : Db :=
  match t with
  | GroupTable => mkDb (groups db ++ [r]) (users db) (S (next_pk db))
  | UserTable => mkDb (groups db) (users db ++ [r]) (S (next_pk db))
  end.

(** ** The directory *)

(** The second component of a search result: a dictionary, or something
    else (a referral). *)
Inductive LdapAttributes :=
| Dict (d : Attrs)
| NotDict.

Definition Entry : Type := string * LdapAttributes.

(** ** Events: log records and calls that leave the command *)

Inductive Level := ERROR | DEBUG | INFO.

Inductive LogRecord :=
| ErrorCreatingGroup (groupname : ustr) (e : Exn)
| CreatedGroup (groupname : ustr)
| GroupsSynchronized
| ErrorCreatingUser (username : ustr) (e : Exn)
| CreatedUser (username : ustr)
| UpdatedUser (username : ustr)
| ErrorUpdatingUser (username : ustr) (e : Exn)
| CalledFor (path : string) (username : ustr)
| UsersSynchronized.

Inductive Event :=
| Log (lvl : Level) (r : LogRecord)
| Search (filter : string) (attributes : list string)
| Unbind
| UserCallback (path : string) (user : Row) (ldap_attributes : Attrs)
    (created updated : bool)
| RemovedUserCallback (path : string) (user : Row).

(** ** Settings

    The attributes of [SyncSettings()] that the command reads, already
    resolved. [settings.model] is the user table of [Db]. *)

Record SyncSettings := mkSettings {
  GROUP_FILTER : string;
  GROUP_ATTRIBUTES : gmap string string;
  GROUPNAME_FIELD : string;
  USER_FILTER : string;
  USER_ATTRIBUTES : gmap string string;
  USER_EXTRA_ATTRIBUTES : list string;
  USERNAME_FIELD : string;
  USER_CALLBACKS : list string;
  REMOVED_USER_CALLBACKS : list string
}.

(** ** External collaborators *)

(** A user-sync hook receives the user object, the raw attributes and the
    two flags; it may change the object and the database, or raise. A
    removal hook receives the user object. The object is shared: what a hook
    returns is the object as the hook left it, and the next hook of the chain
    (and the final save) sees that. *)
Definition UserHook : Type :=
  Row → Attrs → bool → bool → Db → Db * (Exn + Row).

Definition RemovedHook : Type := Row → Db → Db * (Exn + Row).

Record Runtime := mkRuntime {
  (** [s.decode('utf-8')]; [None] is UnicodeDecodeError *)
  decode_utf8 : list byte → option ustr;
  (** [unicode.lower] *)
  lower : ustr → ustr;
  (** the store's [__iexact] match of a stored value against a sought one *)
  iexact : ustr → ustr → bool;
  (** constraint violation raised by an INSERT of these fields *)
  insert_error : Table → list Row → Fields → option DbError;
  (** constraint violation raised by saving this user object *)
  save_error : list Row → Row → option DbError;
  (** [LDAPSearch.search]; the entries of a search are taken whole *)
  ldap_search : string → list string → Exn + list Entry;
  (** [import_string] on the paths of USER_CALLBACKS; [None] is ImportError *)
  import_user_hook : string → option UserHook;
  (** [import_string] on the paths of REMOVED_USER_CALLBACKS *)
  import_removed_hook : string → option RemovedHook
}.

(** ** Computations *)

Record Outcome (A : Type) := mkOutcome {
  out_db : Db;
  out_events : list Event;
  out_result : Exn + A
}.
Arguments mkOutcome {A} _ _ _.
Arguments out_db {A} _.
Arguments out_events {A} _.
Arguments out_result {A} _.

Definition M (A : Type) : Type := Db → Outcome A.

Definition ret {A} (a : A) : M A := λ db, mkOutcome db [] (inr a).

Definition raise {A} (e : Exn) : M A := λ db, mkOutcome db [] (inl e).

Definition bind {A B} (m : M A) (k : A → M B) : M B := λ db,
  let o := m db in
  match out_result o with
  | inl e => mkOutcome (out_db o) (out_events o) (inl e)
  | inr a =>
      let o' := k a (out_db o) in
      mkOutcome (out_db o') (out_events o ++ out_events o') (out_result o')
  end.

Notation "x <- m ;; k" := (bind m (λ x, k))
  (at level 100, m at next level, right associativity).
Notation "m ;;; k" := (bind m (λ _, k))
  (at level 100, right associativity).

(** [try: m] with the exception handed to the continuation instead of
    escaping: the [except] clauses decide what to do with it. *)
Definition attempt {A} (m : M A) : M (Exn + A) := λ db,
  let o := m db in mkOutcome (out_db o) (out_events o) (inr (out_result o)).

Definition emit (ev : Event) : M unit := λ db, mkOutcome db [ev] (inr tt).

Definition logger (lvl : Level) (r : LogRecord) : M unit := emit (Log lvl r).

Definition lift {A} (r : Exn + A) : M A := λ db, mkOutcome db [] r.

(** [for x in xs: body] *)
Fixpoint for_each {A} (xs : list A) (body : A → M unit) : M unit :=
  match xs with
  | [] => ret tt
  | x :: rest => body x ;;; for_each rest body
  end.

(** A loop that carries a local variable. *)
Fixpoint for_fold {A S} (xs : list A) (body : S → A → M S) (s : S) : M S :=
  match xs with
  | [] => ret s
  | x :: rest => s' <- body s x ;; for_fold rest body s'
  end.

(** A loop without effects on the store, which may raise. *)
Fixpoint fold_exn {A S} (xs : list A) (body : S → A → Exn + S) (s : S)
  : Exn + S :=
  match xs with
  | [] => inr s
  | x :: rest =>
      match body s x with
      | inl e => inl e
      | inr s' => fold_exn rest body s'
      end
  end.

(** Truth value of a string and of a list. *)
Definition truthy_str (s : string) : bool :=
  match s with EmptyString => false | _ => true end.

Definition truthy {A} (l : list A) : bool :=
  match l with [] => false | _ => true end.

(** ** The command *)

Section Command.

Variable rt : Runtime.
Variable settings : SyncSettings.

(** *** The ORM calls the command makes *)

Definition iexact_match (field : string) (value : ustr) (r : Row) : bool :=
  match fields r !! field with
  | Some v => iexact rt v value
  | None => false
  end.

Definition exact_match (field : string) (value : ustr) (r : Row) : bool :=
  bool_decide (fields r !! field = Some value).

(** [objects.get_or_create] with the lookup [field__iexact = value] and
    [defaults]: the only row that matches, or a new row made of [defaults]
    alone (the lookup has a [__] in its key and gives nothing to the new
    row). Two matching rows are MultipleObjectsReturned. *)
Definition get_or_create (t : Table) (field : string) (value : ustr)
    (defaults : Fields) : M (Row * bool) := λ db,
  match List.filter (iexact_match field value) (table_rows t db) with
  | [] =>
      match insert_error rt t (table_rows t db) defaults with
      | Some e => mkOutcome db [] (inl (db_exn e))
      | None =>
          let r := mkRow (next_pk db) defaults false in
          mkOutcome (add_row t r db) [] (inr (r, true))
      end
  | [r] => mkOutcome db [] (inr (r, false))
  | _ => mkOutcome db [] (inl MultipleObjectsReturned)
  end.

(** [objects.get] with the lookup [field = value], on the user model *)
Definition get (field : string) (value : ustr) : M Row := λ db,
  match List.filter (exact_match field value) (users db) with
  | [] => mkOutcome db [] (inl DoesNotExist)
  | [r] => mkOutcome db [] (inr r)
  | _ => mkOutcome db [] (inl MultipleObjectsReturned)
  end.

(** [objects.values_list(field, flat=True)] on the user model; every row has
    the column, a row of the model without it is passed over *)
Definition values_list (field : string) : M (list ustr) := λ db,
  mkOutcome db [] (inr (omap (λ r, fields r !! field) (users db))).

Fixpoint store_row (r : Row) (rows : list Row) : list Row :=
  match rows with
  | [] => [r]
  | x :: rest =>
      if decide (pk x = pk r) then r :: rest else x :: store_row r rest
  end.

(** [user.save()] *)
Definition save (user : Row) : M unit := λ db,
  match save_error rt (users db) user with
  | Some e => mkOutcome db [] (inl (db_exn e))
  | None =>
      mkOutcome (mkDb (groups db) (store_row user (users db)) (next_pk db))
        [] (inr tt)
  end.

Definition set_unusable_password (user : Row) : Row :=
  mkRow (pk user) (fields user) true.

Definition setattr (user : Row) (name : string) (attr : ustr) : Row :=
  mkRow (pk user) (<[name := attr]> (fields user)) (unusable_password user).

(** [d[key]] *)
Definition getitem (d : Fields) (key : string) : Exn + ustr :=
  match d !! key with
  | Some v => inr v
  | None => inl KeyError
  end.

(** [except (IntegrityError, DataError)] *)
Definition is_integrity_or_data (e : Exn) : bool :=
  match e with
  | IntegrityError | DataError => true
  | _ => false
  end.

(** [except IntegrityError] *)
Definition is_integrity (e : Exn) : bool :=
  match e with
  | IntegrityError => true
  | _ => false
  end.

(** *** sync_ldap_groups *)

(** Lines 46-50. The value comes out of [settings.GROUP_ATTRIBUTES], not
    out of [ldap_attributes]: [GROUP_ATTRIBUTES[ldap_name]] is the field
    name, [[0]] its first character. *)
Definition group_defaults (ldap_attributes : Attrs) : Exn + Fields :=
  fold_exn (map_to_list (GROUP_ATTRIBUTES settings))
    (λ defaults item,
       let ldap_name := item.1 in
       let field := item.2 in
       match GROUP_ATTRIBUTES settings !! ldap_name with
       | None => inr (<[field := []]> defaults)
       | Some name =>
           match raw name with
           | [] => inl IndexError
           | c :: _ =>
               match decode_utf8 rt [c] with
               | None => inl UnicodeDecodeError
               | Some v => inr (<[field := v]> defaults)
               end
           end
       end)
    ∅.

(** The body of the loop of lines 39-64. *)
Definition sync_ldap_group (entry : Entry) : M unit :=
  match entry.2 with
  | NotDict => ret tt
  | Dict ldap_attributes =>
      defaults <- lift (group_defaults ldap_attributes) ;;
      groupname <- lift (getitem defaults (GROUPNAME_FIELD settings)) ;;
      r <- attempt (get_or_create GroupTable (GROUPNAME_FIELD settings)
                      groupname defaults) ;;
      match r with
      | inl e =>
          if is_integrity_or_data e
          then logger ERROR (ErrorCreatingGroup groupname e)
          else raise e
      | inr (group, created) =>
          if created then logger DEBUG (CreatedGroup groupname) else ret tt
      end
  end.

Definition sync_ldap_groups (ldap_groups : list Entry) : M unit :=
  for_each ldap_groups sync_ldap_group ;;;
  logger INFO GroupsSynchronized.

(** *** sync_ldap_users *)

(** Lines 79-83: only the KeyError of a missing attribute is caught. *)
Definition user_defaults (ldap_attributes : Attrs) : Exn + Fields :=
  fold_exn (map_to_list (USER_ATTRIBUTES settings))
    (λ defaults item,
       let ldap_name := item.1 in
       let field := item.2 in
       match ldap_attributes !! ldap_name with
       | None => inr (<[field := []]> defaults)
       | Some [] => inl IndexError
       | Some (v :: _) =>
           match decode_utf8 rt v with
           | None => inl UnicodeDecodeError
           | Some s => inr (<[field := s]> defaults)
           end
       end)
    ∅.

(** Lines 102-105 for one item of [defaults]; the pair is the user object
    and [updated]. [getattr(user, name, None)] is the lookup. *)
Definition update_field (acc : Row * bool) (item : string * ustr)
  : Row * bool :=
  if decide (fields acc.1 !! item.1 = Some item.2)
  then acc
  else (setattr acc.1 item.1 item.2, true).

(** Lines 101-105. *)
Definition update_fields (defaults : Fields) (user : Row) : Row * bool :=
  foldl update_field (user, false) (map_to_list defaults).

Definition run_user_hook (hook : UserHook) (user : Row)
    (ldap_attributes : Attrs) (created updated : bool) : M Row := λ db,
  let r := hook user ldap_attributes created updated db in
  mkOutcome r.1 [] r.2.

(** Lines 110-111 for one path. *)
Definition call_user_callback (ldap_attributes : Attrs)
    (created updated : bool) (user : Row) (path : string) : M Row :=
  match import_user_hook rt path with
  | None => raise ImportError
  | Some callback =>
      emit (UserCallback path user ldap_attributes created updated) ;;;
      run_user_hook callback user ldap_attributes created updated
  end.

(** Lines 96-107: what becomes of the user object and of [updated]. *)
Definition created_or_updated (username : ustr) (defaults : Fields)
    (user : Row) (created : bool) : M (Row * bool) :=
  if created then
    logger DEBUG (CreatedUser username) ;;;
    ret (set_unusable_password user, false)
  else
    let r := update_fields defaults user in
    (if r.2 then logger DEBUG (UpdatedUser username) else ret tt) ;;;
    ret r.

(** Lines 115-118. *)
Definition save_user (username : ustr) (user : Row) : M unit :=
  r <- attempt (save user) ;;
  match r with
  | inl e =>
      if is_integrity e
      then logger ERROR (ErrorUpdatingUser username e)
      else raise e
  | inr _ => ret tt
  end.

(** Lines 120-121. *)
Definition confirm (username : ustr) (ldap_usernames : gset ustr)
  : gset ustr :=
  if truthy (REMOVED_USER_CALLBACKS settings)
  then {[username]} ∪ ldap_usernames
  else ldap_usernames.

(** Lines 109-111. *)
Definition run_user_callbacks (ldap_attributes : Attrs)
    (created updated : bool) (user : Row) : M Row :=
  for_fold (USER_CALLBACKS settings)
    (call_user_callback ldap_attributes created updated) user.

(** Lines 96-121: the [else] branch of the [try] around get_or_create. *)
Definition reconcile (ldap_usernames : gset ustr) (username : ustr)
    (defaults : Fields) (ldap_attributes : Attrs) (user : Row)
    (created : bool) : M (gset ustr) :=
  cu <- created_or_updated username defaults user created ;;
  user' <- run_user_callbacks ldap_attributes created cu.2 cu.1 ;;
  save_user username user' ;;;
  ret (confirm username ldap_usernames).

(** The body of the loop of lines 72-121; [ldap_usernames] is the set the
    loop fills. *)
Definition sync_ldap_user (ldap_usernames : gset ustr) (entry : Entry)
  : M (gset ustr) :=
  match entry.2 with
  | NotDict => ret ldap_usernames
  | Dict ldap_attributes =>
      defaults <- lift (user_defaults ldap_attributes) ;;
      name <- lift (getitem defaults (USERNAME_FIELD settings)) ;;
      let username := lower rt name in
      r <- attempt (get_or_create UserTable (USERNAME_FIELD settings)
                      username defaults) ;;
      match r with
      | inl e =>
          if is_integrity_or_data e
          then logger ERROR (ErrorCreatingUser username e) ;;;
               ret ldap_usernames
          else raise e
      | inr (user, created) =>
          reconcile ldap_usernames username defaults ldap_attributes
            user created
      end
  end.

Definition run_removed_hook (hook : RemovedHook) (user : Row) : M Row :=
  λ db, let r := hook user db in mkOutcome r.1 [] r.2.

(** Lines 128-130 for one path. *)
Definition call_removed_callback (username : ustr) (user : Row)
    (path : string) : M Row :=
  match import_removed_hook rt path with
  | None => raise ImportError
  | Some callback =>
      emit (RemovedUserCallback path user) ;;;
      user' <- run_removed_hook callback user ;;
      logger DEBUG (CalledFor path username) ;;;
      ret user'
  end.

(** Lines 126-130: the body of the loop over the local-only names. *)
Definition removed_user (username : ustr) : M unit :=
  user <- get (USERNAME_FIELD settings) username ;;
  for_fold (REMOVED_USER_CALLBACKS settings)
    (call_removed_callback username) user ;;;
  ret tt.

(** Lines 123-130. *)
Definition removed_users (ldap_usernames : gset ustr) : M unit :=
  if truthy (REMOVED_USER_CALLBACKS settings) then
    names <- values_list (USERNAME_FIELD settings) ;;
    let django_usernames : gset ustr := list_to_set names in
    for_each (elements (django_usernames ∖ ldap_usernames)) removed_user
  else ret tt.

(** Lines 70-121: the loop, returning the set it filled. *)
Definition confirmed_usernames (ldap_users : list Entry) : M (gset ustr) :=
  for_fold ldap_users sync_ldap_user ∅.

Definition sync_ldap_users (ldap_users : list Entry) : M unit :=
  ldap_usernames <- confirmed_usernames ldap_users ;;
  removed_users ldap_usernames ;;;
  logger INFO UsersSynchronized.

(** *** handle *)

Definition search (filter : string) (attributes : list string)
  : M (list Entry) :=
  emit (Search filter attributes) ;;;
  lift (ldap_search rt filter attributes).

Definition unbind : M unit := emit Unbind.

Definition keys (d : gmap string string) : list string :=
  (map_to_list d).*1.

Definition handle : M unit :=
  (if truthy_str (GROUP_FILTER settings) then
     ldap_groups <- search (GROUP_FILTER settings)
                      (keys (GROUP_ATTRIBUTES settings)) ;;
     sync_ldap_groups ldap_groups
   else ret tt) ;;;
  (if truthy_str (USER_FILTER settings) then
     let user_attributes :=
       (keys (USER_ATTRIBUTES settings)
          ++ USER_EXTRA_ATTRIBUTES settings)%list in
     ldap_users <- search (USER_FILTER settings) user_attributes ;;
     sync_ldap_users ldap_users
   else ret tt) ;;;
  unbind.

End Command.

Arguments get_or_create rt t field value defaults db : simpl never.

(** ** A reference runtime

    The theorems hold for every [Runtime]. Concrete runs use this one: a
    strict UTF-8 decoder, ASCII case folding, a store whose columns hold at
    most [max_length] characters and whose [email] column is unique. *)

Definition continuation (x : byte) : option N :=
  let n := Byte.to_N x in
  if ((128 <=? n) && (n <? 192))%N then Some (n - 128)%N else None.

Fixpoint utf8_decode (s : list byte) : option ustr :=
  match s with
  | [] => Some []
  | x0 :: s1 =>
      let n0 := Byte.to_N x0 in
      if (n0 <? 128)%N then cons n0 <$> utf8_decode s1
      else if (n0 <? 194)%N then None
      else if (n0 <? 224)%N then
        match s1 with
        | x1 :: s2 =>
            match continuation x1 with
            | Some c1 => cons ((n0 - 192) * 64 + c1)%N <$> utf8_decode s2
            | None => None
            end
        | _ => None
        end
      else if (n0 <? 240)%N then
        match s1 with
        | x1 :: x2 :: s3 =>
            match continuation x1, continuation x2 with
            | Some c1, Some c2 =>
                let cp := ((n0 - 224) * 4096 + c1 * 64 + c2)%N in
                if ((cp <? 2048) || ((55296 <=? cp) && (cp <? 57344)))%N
                then None
                else cons cp <$> utf8_decode s3
            | _, _ => None
            end
        | _ => None
        end
      else if (n0 <? 245)%N then
        match s1 with
        | x1 :: x2 :: x3 :: s4 =>
            match continuation x1, continuation x2, continuation x3 with
            | Some c1, Some c2, Some c3 =>
                let cp :=
                  ((n0 - 240) * 262144 + c1 * 4096 + c2 * 64 + c3)%N in
                if ((cp <? 65536) || (1114111 <? cp))%N
                then None
                else cons cp <$> utf8_decode s4
            | _, _, _ => None
            end
        | _ => None
        end
      else None
  end.

Definition lower_ascii (s : ustr) : ustr :=
  (λ c, if ((65 <=? c) && (c <=? 90))%N then (c + 32)%N else c) <$> s.

Definition iexact_ascii (stored sought : ustr) : bool :=
  bool_decide (lower_ascii stored = lower_ascii sought).

Definition max_length : nat := 30.

Definition too_long (values : Fields) : bool :=
  existsb (λ item, (max_length <? List.length item.2)%nat)
    (map_to_list values).

Definition email_taken (rows : list Row) (values : Fields) (self : option nat)
  : bool :=
  match values !! "email" with
  | None => false
  | Some e =>
      existsb
        (λ r, bool_decide (fields r !! "email" = Some e)
              && negb (bool_decide (Some (pk r) = self)))
        rows
  end.

Definition check_insert (t : Table) (rows : list Row) (values : Fields)
  : option DbError :=
  if too_long values then Some Data
  else match t with
       | UserTable => if email_taken rows values None then Some Integrity
                      else None
       | GroupTable => None
       end.

Definition check_save (rows : list Row) (user : Row) : option DbError :=
  if email_taken rows (fields user) (Some (pk user)) then Some Integrity
  else if too_long (fields user) then Some Data
  else None.

Definition reference_runtime
    (directory : string → list string → Exn + list Entry)
    (user_hooks : string → option UserHook)
    (removed_hooks : string → option RemovedHook) : Runtime :=
  mkRuntime utf8_decode lower_ascii iexact_ascii check_insert check_save
    directory user_hooks removed_hooks.

(** Hooks for the runs below. *)

Definition no_user_hooks : string → option UserHook := λ _, None.

(** A removal hook that touches nothing. *)
Definition notify : RemovedHook := λ user db, (db, inr user).

Definition removed_hooks (path : string) : option RemovedHook :=
  if decide (path = "hooks.notify") then Some notify
  else if decide (path = "hooks.audit") then Some notify
  else None.

(** A user-sync hook that gives every user the same e-mail address. *)
Definition shared_mailbox : UserHook := λ user _ _ _ db,
  (db, inr (setattr user "email" (uni "office@example.com"))).

Definition user_hooks (path : string) : option UserHook :=
  if decide (path = "hooks.shared_mailbox") then Some shared_mailbox
  else None.

Definition empty_db : Db := mkDb [] [] 1.

Definition no_directory : string → list string → Exn + list Entry :=
  λ _ _, inr [].

(** ** Reading a run *)

Definition is_unbind (ev : Event) : bool :=
  match ev with Unbind => true | _ => false end.

(** How many times the connection was released. *)
Definition unbind_count (evs : list Event) : nat :=
  length (List.filter is_unbind evs).

(** The removal hooks that were called, in order. *)
Definition removed_calls (evs : list Event) : list (string * Row) :=
  omap (λ ev, match ev with
              | RemovedUserCallback path user => Some (path, user)
              | _ => None
              end) evs.

(** The "Called ... for user ..." records, in order. *)
Definition called_for (evs : list Event) : list (string * ustr) :=
  omap (λ ev, match ev with
              | Log DEBUG (CalledFor path username) => Some (path, username)
              | _ => None
              end) evs.

(** A call of a user-sync hook: [callback(user, ldap_attributes, created,
    updated)]. *)
Record UserCall := mkUserCall {
  call_path : string;
  call_user : Row;
  call_attributes : Attrs;
  call_created : bool;
  call_updated : bool
}.

(** The user-sync hooks that were called, in order. *)
Definition user_calls (evs : list Event) : list UserCall :=
  omap (λ ev, match ev with
              | UserCallback path user attrs created updated =>
                  Some (mkUserCall path user attrs created updated)
              | _ => None
              end) evs.

Definition created_groups (evs : list Event) : list ustr :=
  omap (λ ev, match ev with
              | Log DEBUG (CreatedGroup g) => Some g
              | _ => None
              end) evs.

(** The record lines 96-107 log: a creation, an update, or nothing. *)
Definition drift_log (username : ustr) (created updated : bool)
  : list Event :=
  if created then [Log DEBUG (CreatedUser username)]
  else if updated then [Log DEBUG (UpdatedUser username)]
  else [].

Definition is_ok {A} (r : Exn + A) : bool :=
  match r with inr _ => true | inl _ => false end.

(** Every event a computation emits satisfies [P], whatever the database. *)
Definition emits_only {A} (P : Event → Prop) (m : M A) : Prop :=
  ∀ db, Forall P (out_events (m db)).

Definition not_unbind (ev : Event) : Prop := is_unbind ev = false.

Definition not_user_callback (ev : Event) : Prop :=
  match ev with UserCallback _ _ _ _ _ => False | _ => True end.

(** An outcome with one more event in front. *)
Definition prepend {A} (ev : Event) (o : Outcome A) : Outcome A :=
  mkOutcome (out_db o) (ev :: out_events o) (out_result o).

(** The step of group sync on a well-formed entry; which entry does not
    matter, see [group_defaults]. *)
Definition group_step (rt : Runtime) (settings : SyncSettings) : M unit :=
  sync_ldap_group rt settings ("", Dict ∅).

(** A database on which that step changes nothing and creates nothing. *)
Definition group_stable (rt : Runtime) (settings : SyncSettings) (db : Db)
  : Prop :=
  out_db (group_step rt settings db) = db
  ∧ out_result (group_step rt settings db) = inr tt
  ∧ created_groups (out_events (group_step rt settings db)) = [].

(** An entry the loops work on, as opposed to one they pass over. *)
Definition is_dict (entry : Entry) : bool :=
  match entry.2 with Dict _ => true | NotDict => false end.

(** The searches that were made, in order. *)
Definition searches (evs : list Event) : list (string * list string) :=
  omap (λ ev, match ev with
              | Search filter attributes => Some (filter, attributes)
              | _ => None
              end) evs.

Definition not_search (ev : Event) : Prop :=
  match ev with Search _ _ => False | _ => True end.

Definition not_removal (ev : Event) : Prop :=
  match ev with
  | RemovedUserCallback _ _ | Log _ (CalledFor _ _) => False
  | _ => True
  end.

(** Every database a computation can leave is related to the one it
    started from. *)
Definition changes_by {A} (R : Db → Db → Prop) (m : M A) : Prop :=
  ∀ db, R db (out_db (m db)).

(** Nothing is taken from the store: the user table keeps its primary
    keys, in order, and the group table keeps its rows. *)
Definition keeps_rows (db db' : Db) : Prop :=
  groups db `prefix_of` groups db'
  ∧ (pk <$> users db) `prefix_of` (pk <$> users db').

(** Group sync only: the user table is the same and the group table has
    grown at its end. *)
Definition groups_appended (db db' : Db) : Prop :=
  users db' = users db ∧ groups db `prefix_of` groups db'.

(** What one directory attribute gives its field: the empty string when
    the entry lacks it, the decoding of its first value otherwise; [None]
    when there is no first value or it does not decode. *)
Definition mapped_value (rt : Runtime) (ldap_attributes : Attrs)
    (ldap_name : string) : option ustr :=
  match ldap_attributes !! ldap_name with
  | None => Some []
  | Some [] => None
  | Some (v :: _) => decode_utf8 rt v
  end.

(** ** Scenarios *)

Definition plain_runtime : Runtime :=
  reference_runtime no_directory no_user_hooks removed_hooks.

(** Groups: the directory attribute [cn] becomes the field [name]. *)
Definition group_settings : SyncSettings :=
  mkSettings "(objectClass=group)" {[ "cn" := "name" ]} "name"
    "" ∅ [] "username" [] [].

Definition admins : Entry :=
  ("cn=Admins,dc=example", Dict {[ "cn" := [raw "Admins"] ]}).

Definition staff : Entry :=
  ("cn=Staff,dc=example", Dict {[ "cn" := [raw "Staff"] ]}).

(** Users: [uid] becomes [username], [mail] becomes [email]; one removal
    hook is configured. *)
Definition user_settings : SyncSettings :=
  mkSettings "" ∅ "name"
    "(objectClass=person)" {[ "uid" := "username"; "mail" := "email" ]} []
    "username" [] ["hooks.notify"].

Definition jdoe : Entry :=
  ("uid=JDoe,dc=example",
   Dict {[ "uid" := [raw "JDoe"]; "mail" := [raw "jdoe@example.com"] ]}).

(** An entry whose [uid] is not UTF-8. *)
Definition garbled : Entry :=
  ("uid=garbled,dc=example", Dict {[ "uid" := [[xff]] ]}).

Definition garbled_directory : string → list string → Exn + list Entry :=
  λ _ _, inr [garbled].

Definition jdoe_directory : string → list string → Exn + list Entry :=
  λ _ _, inr [jdoe].

(** A username of 31 characters, one more than a column holds. *)
Definition long_name : Entry :=
  ("uid=long,dc=example",
   Dict {[ "uid" := [raw "a_very_long_directory_user_name"] ]}).

(** Three local users, of which the directory confirms [a] and [b]. *)
Definition abc_db : Db :=
  mkDb []
    [ mkRow 1 {[ "username" := uni "a" ]} false;
      mkRow 2 {[ "username" := uni "b" ]} false;
      mkRow 3 {[ "username" := uni "c" ]} false ]
    4.

(** Two removal hooks. *)
Definition removal_settings : SyncSettings :=
  mkSettings "" ∅ "name"
    "(objectClass=person)" {[ "uid" := "username"; "mail" := "email" ]} []
    "username" [] ["hooks.notify"; "hooks.audit"].

(** One user-sync hook, which rewrites the e-mail address, and one removal
    hook. *)
Definition hook_settings : SyncSettings :=
  mkSettings "" ∅ "name"
    "(objectClass=person)" {[ "uid" := "username"; "mail" := "email" ]} []
    "username" ["hooks.shared_mailbox"] ["hooks.notify"].

Definition hook_runtime : Runtime :=
  reference_runtime no_directory user_hooks removed_hooks.

Definition bob_attributes : Attrs :=
  {[ "uid" := [raw "bob"]; "mail" := [raw "bob@example.com"] ]}.

Definition bob_defaults : Fields :=
  {[ "username" := uni "bob"; "email" := uni "bob@example.com" ]}.

(** The store already has [alice], who holds the shared address. *)
Definition alice_db : Db :=
  mkDb []
    [ mkRow 1 {[ "username" := uni "alice";
                 "email" := uni "office@example.com" ]} true ]
    2.

(** The store has [bob] under an address the directory no longer has. *)
Definition bob_row : Row :=
  mkRow 1 {[ "username" := uni "bob"; "email" := uni "bob@old.example.com" ]}
    true.

Definition bob_db : Db := mkDb [] [bob_row] 2.

(** Both filters, no hooks. *)
Definition plain_settings : SyncSettings :=
  mkSettings "(objectClass=group)" {[ "cn" := "name" ]} "name"
    "(objectClass=person)" {[ "uid" := "username"; "mail" := "email" ]}
    ["telephoneNumber"] "username" [] [].

(** A directory with two groups and one user. *)
Definition office_directory : string → list string → Exn + list Entry :=
  λ filter _,
    if decide (filter = "(objectClass=group)") then inr [admins; staff]
    else inr [jdoe].

(** A directory that cannot be reached. *)
Definition down_directory : string → list string → Exn + list Entry :=
  λ _ _, inl LDAPError.

Definition jdoe_attributes : Attrs :=
  {[ "uid" := [raw "JDoe"]; "mail" := [raw "jdoe@example.com"] ]}.

Definition jdoe_defaults : Fields :=
  {[ "username" := uni "JDoe"; "email" := uni "jdoe@example.com" ]}.

(** Settings that map no attribute to the username field. *)
Definition mail_only_settings : SyncSettings :=
  mkSettings "" ∅ "name"
    "(objectClass=person)" {[ "mail" := "email" ]} [] "username" [] [].

(** A user-sync hook that writes a title of 31 characters, and one that
    raises. *)
Definition long_title : UserHook := λ user _ _ _ db,
  (db, inr (setattr user "title" (uni "Senior Directory Administrator."))).

Definition failing_hook : UserHook := λ _ _ _ _ db,
  (db, inl (HookError "unreachable mail server")).

Definition more_user_hooks (path : string) : option UserHook :=
  if decide (path = "hooks.long_title") then Some long_title
  else if decide (path = "hooks.fail") then Some failing_hook
  else None.

Definition more_runtime : Runtime :=
  reference_runtime no_directory more_user_hooks removed_hooks.

Definition title_settings : SyncSettings :=
  mkSettings "" ∅ "name"
    "(objectClass=person)" {[ "uid" := "username"; "mail" := "email" ]} []
    "username" ["hooks.long_title"] [].

Definition failing_settings : SyncSettings :=
  mkSettings "" ∅ "name"
    "(objectClass=person)" {[ "uid" := "username"; "mail" := "email" ]} []
    "username" ["hooks.fail"; "hooks.long_title"] [].

(** Two local users whose usernames differ in case only. *)
Definition bobs_db : Db :=
  mkDb []
    [ mkRow 1 {[ "username" := uni "Bob" ]} false;
      mkRow 2 {[ "username" := uni "bob" ]} false ]
    3.

(** A store that refuses every insert. *)
Definition closed_runtime : Runtime :=
  mkRuntime utf8_decode lower_ascii iexact_ascii (λ _ _ _, Some Integrity)
    check_save no_directory no_user_hooks removed_hooks.

(** * Properties *)

(** ** Computations and their events *)

Lemma bind_inl {A B} (m : M A) (k : A → M B) db e :
  out_result (m db) = inl e →
  bind m k db = mkOutcome (out_db (m db)) (out_events (m db)) (inl e).
Proof. intros H. unfold bind. by rewrite H. Qed.

Lemma bind_inr {A B} (m : M A) (k : A → M B) db a :
  out_result (m db) = inr a →
  bind m k db =
    mkOutcome (out_db (k a (out_db (m db))))
      (out_events (m db) ++ out_events (k a (out_db (m db))))
      (out_result (k a (out_db (m db)))).
Proof. intros H. unfold bind. by rewrite H. Qed.

(** An exception that escapes the first half of a sequence escapes the
    sequence. *)
Lemma bind_raises {A B} (m : M A) (k : A → M B) db :
  is_ok (out_result (m db)) = false →
  is_ok (out_result (bind m k db)) = false.
Proof.
  unfold bind. destruct (out_result (m db)); [done | discriminate].
Qed.

Lemma bind_ok_inv {A B} (m : M A) (k : A → M B) db (v : B) :
  out_result (bind m k db) = inr v →
  ∃ a, out_result (m db) = inr a ∧
       out_result (k a (out_db (m db))) = inr v.
Proof.
  unfold bind. destruct (out_result (m db)) as [e|a]; simpl; [done|].
  intros H. by exists a.
Qed.

Section Emits.

Context (P : Event → Prop).

Lemma emits_ret {A} (a : A) : emits_only P (ret a).
Proof. intros db. constructor. Qed.

Lemma emits_raise {A} e : emits_only P (@raise A e).
Proof. intros db. constructor. Qed.

Lemma emits_lift {A} (r : Exn + A) : emits_only P (lift r).
Proof. intros db. constructor. Qed.

Lemma emits_emit ev : P ev → emits_only P (emit ev).
Proof. intros H db. simpl. by repeat constructor. Qed.

Lemma emits_bind {A B} (m : M A) (k : A → M B) :
  emits_only P m → (∀ a, emits_only P (k a)) → emits_only P (bind m k).
Proof.
  intros Hm Hk db. unfold bind.
  destruct (out_result (m db)) as [e|a]; simpl; [apply Hm|].
  apply Forall_app. split; [apply Hm | apply Hk].
Qed.

Lemma emits_attempt {A} (m : M A) : emits_only P m → emits_only P (attempt m).
Proof. intros Hm db. apply Hm. Qed.

Lemma emits_for_each {A} (xs : list A) (body : A → M unit) :
  (∀ x, emits_only P (body x)) → emits_only P (for_each xs body).
Proof.
  intros Hb. induction xs as [|x rest IH]; simpl.
  - apply emits_ret.
  - apply emits_bind; auto.
Qed.

Lemma emits_for_fold {A S} (xs : list A) (body : S → A → M S) s :
  (∀ s x, emits_only P (body s x)) → emits_only P (for_fold xs body s).
Proof.
  intros Hb. revert s. induction xs as [|x rest IH]; intros s; simpl.
  - apply emits_ret.
  - apply emits_bind; auto.
Qed.

(** The ORM calls and the hooks emit nothing of their own. *)
Lemma emits_get_or_create rt t field value defaults :
  emits_only P (get_or_create rt t field value defaults).
Proof.
  intros db. unfold get_or_create.
  destruct (List.filter _ _) as [|r [|r' rows]]; simpl; try constructor.
  destruct (insert_error _ _ _ _); constructor.
Qed.

Lemma emits_get field value : emits_only P (get field value).
Proof.
  intros db. unfold get.
  destruct (List.filter _ _) as [|r [|r' rows]]; constructor.
Qed.

Lemma emits_values_list field : emits_only P (values_list field).
Proof. intros db. constructor. Qed.

Lemma emits_save rt user : emits_only P (save rt user).
Proof. intros db. unfold save. destruct (save_error _ _ _); constructor. Qed.

Lemma emits_run_user_hook hook user attrs created updated :
  emits_only P (run_user_hook hook user attrs created updated).
Proof. intros db. constructor. Qed.

Lemma emits_run_removed_hook hook user :
  emits_only P (run_removed_hook hook user).
Proof. intros db. constructor. Qed.

End Emits.

Create HintDb emits.
#[export] Hint Resolve emits_ret emits_raise emits_lift emits_attempt
  emits_get_or_create emits_get emits_values_list emits_save
  emits_run_user_hook emits_run_removed_hook : emits.

(** One step of a proof that a command emits only events of one kind: split
    a sequence or a loop, decide a branch, or close a leaf. *)
Ltac emits_step :=
  match goal with
  | |- emits_only _ (bind _ _) => apply emits_bind; [|intros]
  | |- emits_only _ (for_each _ _) => apply emits_for_each; intros
  | |- emits_only _ (for_fold _ _ _) => apply emits_for_fold; intros
  | |- emits_only _ (attempt _) => apply emits_attempt
  | |- emits_only _ (emit _) => apply emits_emit; done
  | |- emits_only _ (logger _ _) => apply emits_emit; done
  | |- emits_only _ (match ?x with _ => _ end) => destruct x
  | |- emits_only _ _ => solve [auto with emits]
  end.

Ltac emits := repeat emits_step.

(** Projections of an outcome that is written out. *)
Ltac outcome_simpl := cbn [out_db out_events out_result fst snd ret].

Lemma sync_ldap_groups_keeps_connection rt settings ldap_groups :
  emits_only not_unbind (sync_ldap_groups rt settings ldap_groups).
Proof. unfold sync_ldap_groups, sync_ldap_group. emits. Qed.

Lemma sync_ldap_users_keeps_connection rt settings ldap_users :
  emits_only not_unbind (sync_ldap_users rt settings ldap_users).
Proof.
  unfold sync_ldap_users, confirmed_usernames, sync_ldap_user, removed_users,
    removed_user, reconcile, run_user_callbacks, created_or_updated, save_user,
    call_user_callback, call_removed_callback.
  emits.
Qed.

Lemma search_keeps_connection rt filter attributes :
  emits_only not_unbind (search rt filter attributes).
Proof. unfold search. emits. Qed.

Lemma unbind_count_app evs1 evs2 :
  unbind_count (evs1 ++ evs2) = unbind_count evs1 + unbind_count evs2.
Proof. unfold unbind_count. by rewrite List.filter_app, length_app. Qed.

Lemma unbind_count_none evs : Forall not_unbind evs → unbind_count evs = 0.
Proof.
  unfold unbind_count, not_unbind.
  induction 1 as [|ev evs Hev _ IH]; simpl; [done|]. by rewrite Hev.
Qed.

(** Two phases that leave the connection alone, then [unbind]. *)
Lemma unbind_after {A B} (first : M A) (second : M B) db :
  emits_only not_unbind first →
  emits_only not_unbind second →
  let o := bind first (λ _, bind second (λ _, unbind)) db in
  unbind_count (out_events o) = (if is_ok (out_result o) then 1 else 0)
  ∧ (is_ok (out_result o) = true → last (out_events o) = Some Unbind).
Proof.
  intros H1 H2. specialize (H1 db). unfold bind at 1.
  destruct (out_result (first db)) as [e|a]; simpl.
  { split; [by apply unbind_count_none | done]. }
  specialize (H2 (out_db (first db))). unfold bind.
  destruct (out_result (second _)) as [e|x]; simpl.
  - split; [|done]. rewrite unbind_count_app.
    by rewrite !unbind_count_none.
  - split.
    + rewrite !unbind_count_app, !unbind_count_none by done. reflexivity.
    + intros _. by rewrite app_assoc, last_snoc.
Qed.

(** C2 (as the code has it): [handle] releases the connection exactly once,
    as its last action, when no search and no phase raises; when one raises,
    the exception escapes [handle] and the connection is not released. *)
Theorem handle_unbind_count rt settings db :
  let o := handle rt settings db in
  unbind_count (out_events o) = (if is_ok (out_result o) then 1 else 0)
  ∧ (is_ok (out_result o) = true → last (out_events o) = Some Unbind).
Proof.
  unfold handle. apply unbind_after.
  - destruct (truthy_str _); [apply emits_bind; intros|apply emits_ret];
      auto using search_keeps_connection, sync_ldap_groups_keeps_connection.
  - destruct (truthy_str _); [apply emits_bind; intros|apply emits_ret];
      auto using search_keeps_connection, sync_ldap_users_keeps_connection.
Qed.

(** C2, a run that breaks the claim: the directory returns a user whose
    [uid] is not UTF-8; the decoding error escapes [sync_ldap_users] and
    [handle], and [unbind] is never reached. *)
Lemma handle_escapes_without_unbind :
  let rt := reference_runtime garbled_directory no_user_hooks removed_hooks in
  let o := handle rt user_settings empty_db in
  out_result o = inl UnicodeDecodeError
  ∧ unbind_count (out_events o) = 0
  ∧ unbind_count (out_events o) ≠ 1.
Proof. vm_compute. by repeat split. Qed.

(** A run of [handle] that completes: one [unbind], at the end. *)
Lemma handle_unbind_count_witness :
  let rt := reference_runtime jdoe_directory no_user_hooks removed_hooks in
  let o := handle rt user_settings empty_db in
  is_ok (out_result o) = true
  ∧ unbind_count (out_events o) = 1
  ∧ last (out_events o) = Some Unbind.
Proof.
  intros rt o.
  destruct (handle_unbind_count rt user_settings empty_db) as [Hn Hlast].
  assert (Hok : is_ok (out_result o) = true) by (by vm_compute).
  fold o in Hn, Hlast. rewrite Hok in Hn. auto.
Defined.

(** ** Attribute mapping *)

Lemma bind_assoc {A B C} (m : M A) (f : A → M B) (g : B → M C) db :
  bind (bind m f) g db = bind m (λ x, bind (f x) g) db.
Proof.
  unfold bind. destruct (out_result (m db)) as [e|a]; simpl; [done|].
  destruct (out_result (f a _)) as [e|y]; simpl; [done|].
  by rewrite app_assoc.
Qed.

Lemma for_fold_app {A S} (xs ys : list A) (body : S → A → M S) s db :
  for_fold (xs ++ ys) body s db =
  bind (for_fold xs body s) (for_fold ys body) db.
Proof.
  revert s db. induction xs as [|x xs IH]; intros s db; simpl.
  - unfold bind, ret. simpl. by destruct (for_fold ys body s db).
  - rewrite bind_assoc.
    destruct (out_result (body s x db)) as [e|s'] eqn:Hb.
    + by rewrite !(bind_inl _ _ _ _ Hb).
    + rewrite !(bind_inr _ _ _ _ Hb). by rewrite IH.
Qed.

(** A loop raises as soon as one of its items raises whatever the state. *)
Lemma fold_exn_raises {A S} (xs : list A) (body : S → A → Exn + S) x s :
  x ∈ xs →
  (∀ s', is_ok (body s' x) = false) →
  is_ok (fold_exn xs body s) = false.
Proof.
  intros Hin Hx. revert s.
  induction xs as [|y xs IH]; intros s; simpl.
  - by apply not_elem_of_nil in Hin.
  - apply elem_of_cons in Hin as [<- | Hin].
    + specialize (Hx s). by destruct (body s x).
    + destruct (body s y); [done | by apply IH].
Qed.

(** What a loop raises, one of its items raised. *)
Lemma fold_exn_inl {A S} (xs : list A) (body : S → A → Exn + S) s e :
  fold_exn xs body s = inl e → ∃ s' x, x ∈ xs ∧ body s' x = inl e.
Proof.
  revert s. induction xs as [|y xs IH]; intros s; simpl; [done|].
  destruct (body s y) as [e'|s'] eqn:Hy.
  - intros [= ->]. exists s, y. split; [apply list_elem_of_here | done].
  - intros H. destruct (IH _ H) as (s'' & x & Hin & Hx).
    exists s'', x. split; [by apply list_elem_of_further | done].
Qed.

Lemma user_defaults_raises rt settings attrs e :
  user_defaults rt settings attrs = inl e →
  e = UnicodeDecodeError ∨ e = IndexError.
Proof.
  intros H. apply fold_exn_inl in H as (d & [k f] & _ & H). simpl in H.
  destruct (attrs !! k) as [[|v vs]|]; try discriminate.
  - injection H as <-. by right.
  - destruct (decode_utf8 rt v); [discriminate|]. injection H as <-. by left.
Qed.

(** C5 (as the code has it): a value that does not decode is not treated as
    a missing attribute. The exception leaves the entry's step with nothing
    written, and leaves every run of [sync_ldap_users] that contains the
    entry. *)
Theorem decode_failure_escapes rt settings cname attrs ldap_name field v vs :
  USER_ATTRIBUTES settings !! ldap_name = Some field →
  attrs !! ldap_name = Some (v :: vs) →
  decode_utf8 rt v = None →
  (∀ ldap_usernames db, ∃ e,
      sync_ldap_user rt settings ldap_usernames (cname, Dict attrs) db
        = mkOutcome db [] (inl e)
      ∧ (e = UnicodeDecodeError ∨ e = IndexError))
  ∧ (∀ before after db,
      is_ok (out_result (sync_ldap_users rt settings
                           (before ++ (cname, Dict attrs) :: after) db))
        = false).
Proof.
  intros Hcfg Hattr Hdec.
  assert (Hstep : ∀ ldap_usernames db, ∃ e,
      sync_ldap_user rt settings ldap_usernames (cname, Dict attrs) db
        = mkOutcome db [] (inl e)
      ∧ (e = UnicodeDecodeError ∨ e = IndexError)).
  { intros S db.
    assert (Hraise : is_ok (user_defaults rt settings attrs) = false).
    { apply fold_exn_raises with (x := (ldap_name, field)).
      - by apply elem_of_map_to_list.
      - intros d. simpl. by rewrite Hattr, Hdec. }
    destruct (user_defaults rt settings attrs) as [e|d] eqn:Hd; [|done].
    exists e. split; [|by eapply user_defaults_raises].
    unfold sync_ldap_user. simpl. unfold bind, lift. simpl.
    by rewrite Hd. }
  split; [exact Hstep|].
  intros before after db. unfold sync_ldap_users.
  apply bind_raises. unfold confirmed_usernames. rewrite for_fold_app.
  destruct (out_result (for_fold before (sync_ldap_user rt settings) ∅ db))
    as [e|S] eqn:Hbefore.
  - by rewrite (bind_inl _ _ _ _ Hbefore).
  - rewrite (bind_inr _ _ _ _ Hbefore). simpl.
    apply bind_raises.
    by destruct (Hstep S
         (out_db (for_fold before (sync_ldap_user rt settings) ∅ db)))
      as (e & -> & _).
Qed.

(** C5, a run that breaks the claim: the [uid] of the entry is the byte
    0xFF. No user with an empty username is made; UnicodeDecodeError
    leaves [sync_ldap_users]. *)
Lemma garbled_uid_aborts_user_sync :
  let o := sync_ldap_users plain_runtime user_settings [garbled] empty_db in
  out_result o = inl UnicodeDecodeError
  ∧ users (out_db o) = []
  ∧ out_events o = [].
Proof. vm_compute. by repeat split. Qed.

(** A sweep with the garbled entry between two good ones. *)
Lemma decode_failure_escapes_witness :
  USER_ATTRIBUTES user_settings !! "uid" = Some "username"
  ∧ is_ok (out_result (sync_ldap_users plain_runtime user_settings
                         ([jdoe] ++ garbled :: [jdoe]) empty_db)) = false.
Proof.
  assert (H1 : USER_ATTRIBUTES user_settings !! "uid" = Some "username")
    by (by vm_compute).
  split; [exact H1|].
  refine (proj2 (decode_failure_escapes plain_runtime user_settings
                   "uid=garbled,dc=example" {[ "uid" := [[xff]] ]}
                   "uid" "username" [xff] [] H1 _ _) [jdoe] [jdoe] empty_db).
  - by vm_compute.
  - by vm_compute.
Defined.

(** The defaults of a group do not depend on the entry: line 48 reads the
    settings table where line 81 reads [ldap_attributes]. *)
Lemma group_defaults_constant rt settings (attrs1 attrs2 : Attrs) :
  group_defaults rt settings attrs1 = group_defaults rt settings attrs2.
Proof. reflexivity. Qed.

(** C1, the failing run: the directory has the group [Admins], and [cn] is
    configured to become the field [name]. The mapped record holds the first
    letter of the field name, a group of that name is created, and no group
    matches [Admins]. *)
Theorem admins_group_named_after_field :
  let o := sync_ldap_groups plain_runtime group_settings [admins] empty_db in
  group_defaults plain_runtime group_settings {[ "cn" := [raw "Admins"] ]}
    = inr {[ "name" := uni "n" ]}
  ∧ out_result o = inr tt
  ∧ fields <$> groups (out_db o) = [ {[ "name" := uni "n" ]} ]
  ∧ List.filter (iexact_match plain_runtime "name" (uni "Admins"))
      (groups (out_db o)) = [].
Proof. vm_compute. by repeat split. Qed.

(** C3, the failing run: the directory has the user [JDoe] and the store is
    empty. The user is stored as [JDoe]; no stored username is [jdoe]. *)
Theorem jdoe_stored_in_directory_case :
  let o := sync_ldap_users plain_runtime user_settings [jdoe] empty_db in
  out_result o = inr tt
  ∧ omap (λ r, fields r !! "username") (users (out_db o)) = [uni "JDoe"]
  ∧ List.filter (exact_match "username" (uni "jdoe")) (users (out_db o)) = [].
Proof. vm_compute. by repeat split. Qed.

(** C10: there is a run in which a user the directory has just confirmed is
    handed to the removal hooks. The decoded username has an upper-case
    letter and matches no local user; the row is created from the defaults
    (directory case), the confirmed set holds the lower-cased name, the exact
    difference keeps the stored name, and the removal hook is called on the
    new row. *)
Theorem confirmed_user_reported_removed :
  ∃ rt settings cname attrs db defaults name user path,
    user_defaults rt settings attrs = inr defaults
    ∧ defaults !! USERNAME_FIELD settings = Some name
    ∧ lower rt name ≠ name
    ∧ List.filter (iexact_match rt (USERNAME_FIELD settings) (lower rt name))
        (users db) = []
    ∧ let loop := confirmed_usernames rt settings [(cname, Dict attrs)] db in
      let o := sync_ldap_users rt settings [(cname, Dict attrs)] db in
      out_result loop = inr {[ lower rt name ]}
      ∧ users (out_db loop) = [user]
      ∧ fields user = defaults
      ∧ elements (list_to_set (omap (λ r, fields r !! USERNAME_FIELD settings)
                                 (users (out_db loop)))
                  ∖ ({[ lower rt name ]} : gset ustr)) = [name]
      ∧ out_result o = inr tt
      ∧ removed_calls (out_events o) = [(path, user)]
      ∧ called_for (out_events o) = [(path, name)].
Proof.
  exists plain_runtime, user_settings, "uid=JDoe,dc=example",
    {[ "uid" := [raw "JDoe"]; "mail" := [raw "jdoe@example.com"] ]},
    empty_db,
    {[ "username" := uni "JDoe"; "email" := uni "jdoe@example.com" ]},
    (uni "JDoe"),
    (mkRow 1 {[ "username" := uni "JDoe";
                "email" := uni "jdoe@example.com" ]} true),
    "hooks.notify".
  vm_compute. by repeat split.
Qed.

(** ** Equations of the steps *)

Lemma outcome_eta {A} (o : Outcome A) :
  mkOutcome (out_db o) (out_events o) (out_result o) = o.
Proof. by destruct o. Qed.

Lemma bind_ret {A B} (a : A) (k : A → M B) db : bind (ret a) k db = k a db.
Proof. unfold bind, ret. simpl. apply outcome_eta. Qed.

Lemma bind_lift_inr {A B} (a : A) (k : A → M B) db :
  bind (lift (inr a)) k db = k a db.
Proof. unfold bind, lift. simpl. apply outcome_eta. Qed.

Lemma bind_emit {B} ev (k : unit → M B) db :
  bind (emit ev) k db = prepend ev (k tt db).
Proof. reflexivity. Qed.

Lemma bind_logger {B} lvl r (k : unit → M B) db :
  bind (logger lvl r) k db = prepend (Log lvl r) (k tt db).
Proof. reflexivity. Qed.

Lemma bind_attempt {A B} (m : M A) (k : Exn + A → M B) db db' r :
  m db = mkOutcome db' [] r → bind (attempt m) k db = k r db'.
Proof. intros H. unfold bind, attempt. rewrite H. simpl. apply outcome_eta. Qed.

Lemma get_or_create_found rt t field value defaults db r :
  List.filter (iexact_match rt field value) (table_rows t db) = [r] →
  get_or_create rt t field value defaults db = mkOutcome db [] (inr (r, false)).
Proof. intros H. unfold get_or_create. by rewrite H. Qed.

Lemma get_or_create_inserted rt t field value defaults db :
  List.filter (iexact_match rt field value) (table_rows t db) = [] →
  insert_error rt t (table_rows t db) defaults = None →
  get_or_create rt t field value defaults db =
    mkOutcome (add_row t (mkRow (next_pk db) defaults false) db) []
      (inr (mkRow (next_pk db) defaults false, true)).
Proof. intros H1 H2. unfold get_or_create. by rewrite H1, H2. Qed.

Lemma get_or_create_rejected rt t field value defaults db e :
  List.filter (iexact_match rt field value) (table_rows t db) = [] →
  insert_error rt t (table_rows t db) defaults = Some e →
  get_or_create rt t field value defaults db = mkOutcome db [] (inl (db_exn e)).
Proof. intros H1 H2. unfold get_or_create. by rewrite H1, H2. Qed.

Section UserStep.

Context (rt : Runtime) (settings : SyncSettings).
Context (cname : string) (attrs : Attrs) (defaults : Fields) (name : ustr).
Hypothesis Hdefaults : user_defaults rt settings attrs = inr defaults.
Hypothesis Hname : defaults !! USERNAME_FIELD settings = Some name.

Local Abbreviation username := (lower rt name).

(** The step of a well-formed entry, from what get_or_create did. *)
Lemma sync_ldap_user_step ldap_usernames db :
  sync_ldap_user rt settings ldap_usernames (cname, Dict attrs) db =
  bind (attempt (get_or_create rt UserTable (USERNAME_FIELD settings)
                   username defaults))
    (λ r, match r with
          | inl e =>
              if is_integrity_or_data e
              then logger ERROR (ErrorCreatingUser username e) ;;;
                   ret ldap_usernames
              else raise e
          | inr (user, created) =>
              reconcile rt settings ldap_usernames username defaults attrs
                user created
          end) db.
Proof.
  unfold sync_ldap_user. simpl. rewrite Hdefaults, bind_lift_inr.
  unfold getitem. by rewrite Hname, bind_lift_inr.
Qed.

Lemma sync_ldap_user_found ldap_usernames db user :
  List.filter (iexact_match rt (USERNAME_FIELD settings) username) (users db)
    = [user] →
  sync_ldap_user rt settings ldap_usernames (cname, Dict attrs) db =
  reconcile rt settings ldap_usernames username defaults attrs user false db.
Proof.
  intros H. rewrite sync_ldap_user_step.
  by rewrite (bind_attempt _ _ _ _ _
                (get_or_create_found _ UserTable _ _ _ _ _ H)).
Qed.

Lemma sync_ldap_user_inserted ldap_usernames db :
  List.filter (iexact_match rt (USERNAME_FIELD settings) username) (users db)
    = [] →
  insert_error rt UserTable (users db) defaults = None →
  sync_ldap_user rt settings ldap_usernames (cname, Dict attrs) db =
  reconcile rt settings ldap_usernames username defaults attrs
    (mkRow (next_pk db) defaults false) true
    (add_row UserTable (mkRow (next_pk db) defaults false) db).
Proof.
  intros H1 H2. rewrite sync_ldap_user_step.
  by rewrite (bind_attempt _ _ _ _ _
                (get_or_create_inserted _ UserTable _ _ _ _ H1 H2)).
Qed.

Lemma sync_ldap_user_rejected ldap_usernames db e :
  List.filter (iexact_match rt (USERNAME_FIELD settings) username) (users db)
    = [] →
  insert_error rt UserTable (users db) defaults = Some e →
  sync_ldap_user rt settings ldap_usernames (cname, Dict attrs) db =
  mkOutcome db [Log ERROR (ErrorCreatingUser username (db_exn e))]
    (inr ldap_usernames).
Proof.
  intros H1 H2. rewrite sync_ldap_user_step.
  rewrite (bind_attempt _ _ _ _ _
             (get_or_create_rejected _ UserTable _ _ _ _ _ H1 H2)).
  by destruct e.
Qed.

End UserStep.

(** ** Attribute drift *)

Lemma update_field_spec user flag k v :
  let r := update_field (user, flag) (k, v) in
  pk r.1 = pk user
  ∧ unusable_password r.1 = unusable_password user
  ∧ fields r.1 = <[k := v]> (fields user)
  ∧ (r.2 = true ↔ flag = true ∨ fields user !! k ≠ Some v).
Proof.
  unfold update_field. simpl. case_decide as Hcur; simpl.
  - repeat split; try done.
    + by rewrite insert_id.
    + auto.
    + intros [?|?]; done.
  - repeat split; auto.
Qed.

Lemma foldl_update_field (l : list (string * ustr)) user flag :
  NoDup l.*1 →
  let r := foldl update_field (user, flag) l in
  pk r.1 = pk user
  ∧ unusable_password r.1 = unusable_password user
  ∧ fields r.1 = list_to_map l ∪ fields user
  ∧ (r.2 = true ↔
     flag = true ∨ ∃ item, item ∈ l ∧ fields user !! item.1 ≠ Some item.2).
Proof.
  revert user flag. induction l as [|[k v] l IH]; intros user flag Hnd; simpl.
  - repeat split; try done.
    + by rewrite (left_id_L ∅ (∪)).
    + auto.
    + intros [?|(item & Hin & _)]; [done|]. by apply not_elem_of_nil in Hin.
  - apply NoDup_cons in Hnd as [Hk Hnd]. simpl in Hk.
    destruct (update_field_spec user flag k v) as (Hpk & Hpw & Hf & Hflag).
    destruct (update_field (user, flag) (k, v)) as [user' flag'].
    simpl in Hpk, Hpw, Hf, Hflag.
    destruct (IH user' flag' Hnd) as (Hpk' & Hpw' & Hf' & Hflag').
    split; [congruence|]. split; [congruence|]. split.
    + rewrite Hf', Hf.
      rewrite <- insert_union_r by by apply not_elem_of_list_to_map_1.
      by rewrite insert_union_l.
    + rewrite Hflag', Hflag. split.
      * intros [[?|Hd]|(item & Hin & Hd)]; [by left| |].
        -- right. exists (k, v). split; [apply list_elem_of_here | done].
        -- right. exists item. split; [by apply list_elem_of_further|].
           rewrite Hf, lookup_insert_ne in Hd; [done|].
           intros ->. apply Hk. by apply list_elem_of_fmap_2.
      * intros [?|(item & Hin & Hd)]; [by left; left|].
        apply elem_of_cons in Hin as [-> | Hin]; [by left; right|].
        right. exists item. split; [done|].
        rewrite Hf, lookup_insert_ne; [done|].
        intros ->. apply Hk. by apply list_elem_of_fmap_2.
Qed.

(** Lines 101-105 as a whole: the user object afterwards holds the mapped
    record over what it held, and [updated] says whether a field differed. *)
Lemma update_fields_spec defaults user :
  let r := update_fields defaults user in
  pk r.1 = pk user
  ∧ unusable_password r.1 = unusable_password user
  ∧ fields r.1 = defaults ∪ fields user
  ∧ (r.2 = true ↔
     ∃ field attr, defaults !! field = Some attr
                   ∧ fields user !! field ≠ Some attr).
Proof.
  destruct (foldl_update_field (map_to_list defaults) user false
              (NoDup_fst_map_to_list defaults)) as (Hpk & Hpw & Hf & Hflag).
  unfold update_fields. repeat split; try done.
  - by rewrite Hf, list_to_map_to_list.
  - intros H. apply Hflag in H as [?|([k v] & Hin & Hd)]; [done|].
    exists k, v. split; [by apply elem_of_map_to_list | done].
  - intros (k & v & Hin & Hd). apply Hflag. right.
    exists (k, v). split; [by apply elem_of_map_to_list | done].
Qed.

(** ** User-sync hooks *)

Lemma user_calls_app evs1 evs2 :
  user_calls (evs1 ++ evs2) = user_calls evs1 ++ user_calls evs2.
Proof. apply omap_app. Qed.

Lemma user_calls_none evs : Forall not_user_callback evs → user_calls evs = [].
Proof.
  induction 1 as [|ev evs Hev _ IH]; [done|].
  destruct ev; try done; exact IH.
Qed.

Lemma save_user_no_hook rt username user :
  emits_only not_user_callback (save_user rt username user).
Proof. unfold save_user. emits. Qed.

Lemma call_user_callback_run rt attrs created updated user path db :
  call_user_callback rt attrs created updated user path db =
  match import_user_hook rt path with
  | None => mkOutcome db [] (inl ImportError)
  | Some hook =>
      mkOutcome (hook user attrs created updated db).1
        [UserCallback path user attrs created updated]
        (hook user attrs created updated db).2
  end.
Proof.
  unfold call_user_callback. by destruct (import_user_hook rt path).
Qed.

(** The chain of lines 109-111: every call carries the two flags and the raw
    attributes, the first call receives the object as it stood, and a chain
    that returns has called every configured hook, in order. *)
Lemma run_user_callbacks_calls rt settings attrs created updated user db :
  let o := run_user_callbacks rt settings attrs created updated user db in
  Forall (λ c, call_created c = created ∧ call_updated c = updated
               ∧ call_attributes c = attrs)
    (user_calls (out_events o))
  ∧ (is_ok (out_result o) = true →
     call_path <$> user_calls (out_events o) = USER_CALLBACKS settings)
  ∧ (∀ c, head (user_calls (out_events o)) = Some c → call_user c = user).
Proof.
  unfold run_user_callbacks.
  generalize (USER_CALLBACKS settings) as paths.
  intros paths. revert user db.
  induction paths as [|path paths IH]; intros user db; simpl.
  { by repeat split. }
  pose proof (call_user_callback_run rt attrs created updated user path db)
    as Hrun.
  destruct (import_user_hook rt path) as [hook|].
  - destruct (hook user attrs created updated db) as [db' [e|user']];
      simpl in Hrun.
    + rewrite (bind_inl _ _ _ e) by (by rewrite Hrun). rewrite Hrun. simpl.
      repeat split; try done.
      * by repeat constructor.
      * by intros c [= <-].
    + rewrite (bind_inr _ _ _ user') by (by rewrite Hrun). rewrite Hrun. simpl.
      destruct (IH user' db') as (Hall & Hpaths & _).
      repeat split.
      * by constructor.
      * intros Hok. f_equal. exact (Hpaths Hok).
      * by intros c [= <-].
  - rewrite (bind_inl _ _ _ ImportError) by (by rewrite Hrun).
    rewrite Hrun. by repeat split.
Qed.

Lemma get_or_create_events rt t field value defaults db :
  out_events (get_or_create rt t field value defaults db) = [].
Proof.
  unfold get_or_create.
  destruct (List.filter _ _) as [|r [|r' rows]]; try done.
  by destruct (insert_error _ _ _ _).
Qed.

Lemma save_user_run rt username user db :
  save_user rt username user db =
  match save_error rt (users db) user with
  | Some Integrity =>
      mkOutcome db [Log ERROR (ErrorUpdatingUser username IntegrityError)]
        (inr tt)
  | Some Data => mkOutcome db [] (inl DataError)
  | None =>
      mkOutcome (mkDb (groups db) (store_row user (users db)) (next_pk db))
        [] (inr tt)
  end.
Proof.
  unfold save_user, bind, attempt, save.
  by destruct (save_error rt (users db) user) as [[|]|].
Qed.

Lemma created_or_updated_run username defaults user (created : bool) db :
  created_or_updated username defaults user created db =
  mkOutcome db (drift_log username created (update_fields defaults user).2)
    (inr (if created then (set_unusable_password user, false)
          else update_fields defaults user)).
Proof.
  unfold created_or_updated, drift_log. destruct created; [done|].
  cbv zeta. by destruct (update_fields defaults user) as [user' [|]].
Qed.

(** Lines 96-121 from the outcome of the chain of hooks and of the save. *)
Lemma reconcile_run rt settings ldap_usernames username defaults attrs user
    (created : bool) db :
  let cu := if created then (set_unusable_password user, false)
            else update_fields defaults user in
  let drift := drift_log username created (update_fields defaults user).2 in
  let chain := run_user_callbacks rt settings attrs created cu.2 cu.1 db in
  reconcile rt settings ldap_usernames username defaults attrs user created db
  = match out_result chain with
    | inl e => mkOutcome (out_db chain) (drift ++ out_events chain) (inl e)
    | inr user' =>
        let saved := save_user rt username user' (out_db chain) in
        mkOutcome (out_db saved)
          (drift ++ out_events chain ++ out_events saved)
          (match out_result saved with
           | inl e => inl e
           | inr _ => inr (confirm settings username ldap_usernames)
           end)
    end.
Proof.
  intros cu drift chain. unfold reconcile.
  pose proof (created_or_updated_run username defaults user created db) as Hcu.
  fold cu drift in Hcu.
  rewrite (bind_inr _ _ _ cu) by (by rewrite Hcu). rewrite Hcu. outcome_simpl.
  fold chain.
  destruct (out_result chain) as [e|user'] eqn:Hchain.
  - subst chain. by rewrite (bind_inl _ _ _ _ Hchain).
  - subst chain. rewrite (bind_inr _ _ _ _ Hchain). outcome_simpl.
    destruct (out_result (save_user rt username user'
                (out_db (run_user_callbacks rt settings attrs created
                           cu.2 cu.1 db)))) as [e|[]] eqn:Hs.
    + by rewrite (bind_inl _ _ _ _ Hs).
    + rewrite (bind_inr _ _ _ _ Hs). outcome_simpl. by rewrite app_nil_r.
Qed.

(** The [else] branch of lines 96-121 calls the hooks of the chain and no
    other. *)
Lemma reconcile_calls rt settings ldap_usernames username defaults attrs
    user (created : bool) db :
  let cu := if created then (set_unusable_password user, false)
            else update_fields defaults user in
  let chain := run_user_callbacks rt settings attrs created cu.2 cu.1 db in
  let o := reconcile rt settings ldap_usernames username defaults attrs
             user created db in
  user_calls (out_events o) = user_calls (out_events chain)
  ∧ (is_ok (out_result o) = true → is_ok (out_result chain) = true).
Proof.
  intros cu chain o.
  assert (Hrest : ∀ cu' : Row * bool,
    let o' := bind (run_user_callbacks rt settings attrs created cu'.2 cu'.1)
                (λ user', save_user rt username user' ;;;
                          ret (confirm settings username ldap_usernames)) db in
    let chain' := run_user_callbacks rt settings attrs created cu'.2 cu'.1 db in
    user_calls (out_events o') = user_calls (out_events chain')
    ∧ (is_ok (out_result o') = true → is_ok (out_result chain') = true)).
  { intros cu'. simpl.
    destruct (out_result (run_user_callbacks rt settings attrs created
                            cu'.2 cu'.1 db)) as [e|user'] eqn:Hchain.
    { by rewrite (bind_inl _ _ _ _ Hchain). }
    rewrite (bind_inr _ _ _ _ Hchain). simpl.
    split; [|done]. rewrite user_calls_app.
    rewrite (user_calls_none (out_events (bind _ _ _))).
    - by rewrite app_nil_r.
    - apply emits_bind; [apply save_user_no_hook | intros; apply emits_ret]. }
  subst o chain cu. unfold reconcile, created_or_updated.
  destruct created; cbv iota.
  - rewrite bind_assoc, bind_logger, bind_ret.
    apply (Hrest (set_unusable_password user, false)).
  - cbv zeta. rewrite bind_assoc.
    destruct (update_fields defaults user) as [user' [|]]; cbn [fst snd].
    + rewrite bind_logger, bind_ret. apply (Hrest (user', true)).
    + rewrite !bind_ret. apply (Hrest (user', false)).
Qed.

(** C7: for an entry that matches one local user, the fields of the mapped
    record are written over the stored ones (others are left alone),
    [updated] is true exactly when a mapped field differed from the stored
    one, and every user-sync hook is called with [created = False] and that
    [updated], the first one on the updated object. For an entry that
    matches no local user and is inserted, every hook is called with
    [created = True] and [updated = False]. In both cases a step that
    returns has called the configured hooks in order. *)
Theorem user_callback_flags rt settings cname attrs defaults name
    ldap_usernames db :
  user_defaults rt settings attrs = inr defaults →
  defaults !! USERNAME_FIELD settings = Some name →
  let username := lower rt name in
  let matched :=
    List.filter (iexact_match rt (USERNAME_FIELD settings) username)
      (users db) in
  let o := sync_ldap_user rt settings ldap_usernames (cname, Dict attrs) db in
  (∀ user, matched = [user] →
     let r := update_fields defaults user in
     (∀ field attr, defaults !! field = Some attr →
                    fields r.1 !! field = Some attr)
     ∧ (∀ field, defaults !! field = None →
                 fields r.1 !! field = fields user !! field)
     ∧ (r.2 = true ↔
        ∃ field attr, defaults !! field = Some attr
                      ∧ fields user !! field ≠ Some attr)
     ∧ Forall (λ c, call_created c = false ∧ call_updated c = r.2)
         (user_calls (out_events o))
     ∧ (∀ c, head (user_calls (out_events o)) = Some c → call_user c = r.1)
     ∧ (is_ok (out_result o) = true →
        call_path <$> user_calls (out_events o) = USER_CALLBACKS settings)
     ∧ (USER_CALLBACKS settings = [] →
        save_error rt (users db) r.1 = None →
        users (out_db o) = store_row r.1 (users db)))
  ∧ (matched = [] →
     insert_error rt UserTable (users db) defaults = None →
     Forall (λ c, call_created c = true ∧ call_updated c = false)
       (user_calls (out_events o))
     ∧ (is_ok (out_result o) = true →
        call_path <$> user_calls (out_events o) = USER_CALLBACKS settings)).
Proof.
  intros Hdefaults Hname username matched o. subst username matched.
  split.
  - intros user Hmatched r.
    destruct (update_fields_spec defaults user) as (_ & _ & Hf & Hflag).
    fold r in Hf, Hflag.
    split; [|split; [|split; [exact Hflag|]]].
    + intros field attr Hd. rewrite Hf. by apply lookup_union_Some_l.
    + intros field Hd. rewrite Hf. by apply lookup_union_r.
    + subst o.
      rewrite (sync_ldap_user_found rt settings cname attrs defaults name
                 Hdefaults Hname _ _ user Hmatched).
      assert (Hstored :
        USER_CALLBACKS settings = [] →
        save_error rt (users db) r.1 = None →
        users (out_db (reconcile rt settings ldap_usernames (lower rt name)
                         defaults attrs user false db))
        = store_row r.1 (users db)).
      { intros Hnone Hsave. rewrite reconcile_run. cbv zeta. fold r.
        unfold run_user_callbacks. rewrite Hnone. cbn [for_fold].
        outcome_simpl. by rewrite save_user_run, Hsave. }
      destruct (reconcile_calls rt settings ldap_usernames (lower rt name)
                  defaults attrs user false db) as [-> Hok]. fold r in Hok |- *.
      destruct (run_user_callbacks_calls rt settings attrs false r.2 r.1 db)
        as (Hall & Hpaths & Hhead).
      split; [|split; [exact Hhead | split; [auto | exact Hstored]]].
      eapply Forall_impl; [exact Hall|]. by intros c (? & ? & _).
  - intros Hmatched Hins. subst o.
    rewrite (sync_ldap_user_inserted rt settings cname attrs defaults name
               Hdefaults Hname _ _ Hmatched Hins).
    destruct (reconcile_calls rt settings ldap_usernames (lower rt name)
                defaults attrs (mkRow (next_pk db) defaults false) true
                (add_row UserTable (mkRow (next_pk db) defaults false) db))
      as [-> Hok]. cbn [fst snd] in Hok |- *.
    destruct (run_user_callbacks_calls rt settings attrs true false
                (set_unusable_password (mkRow (next_pk db) defaults false))
                (add_row UserTable (mkRow (next_pk db) defaults false) db))
      as (Hall & Hpaths & _).
    split; [|auto].
    eapply Forall_impl; [exact Hall|]. by intros c (? & ? & _).
Qed.

(** ** Saving, and the confirmed set *)

(** A step that returns leaves the set as it was or adds the username. *)
Lemma reconcile_result rt settings ldap_usernames username defaults attrs
    user created db S :
  out_result (reconcile rt settings ldap_usernames username defaults attrs
                user created db) = inr S →
  S = confirm settings username ldap_usernames.
Proof.
  rewrite reconcile_run. cbv zeta.
  destruct (out_result (run_user_callbacks _ _ _ _ _ _ _)); [done|].
  outcome_simpl.
  match goal with
  | |- context [out_result (save_user ?a ?b ?c ?d)] =>
      destruct (out_result (save_user a b c d))
  end; [done|]. by intros [= <-].
Qed.

Lemma confirm_elem settings username ldap_usernames :
  REMOVED_USER_CALLBACKS settings ≠ [] →
  username ∈ confirm settings username ldap_usernames.
Proof.
  unfold confirm. destruct (REMOVED_USER_CALLBACKS settings); [done|].
  intros _. simpl. set_solver.
Qed.

Lemma confirm_subseteq settings username ldap_usernames :
  ldap_usernames ⊆ confirm settings username ldap_usernames.
Proof. unfold confirm. destruct (truthy _); set_solver. Qed.

(** C9: the entry's get_or_create returned, its hooks returned, and the save
    raises IntegrityError. The step returns all the same: the error is the
    last record logged, nothing is written by the save, the username is in
    the set the step returns when removal hooks are configured, and the loop
    goes on with the entries after it. *)
Theorem failed_save_is_isolated rt settings cname attrs defaults name
    ldap_usernames db user created user' rest :
  user_defaults rt settings attrs = inr defaults →
  defaults !! USERNAME_FIELD settings = Some name →
  let username := lower rt name in
  let found := get_or_create rt UserTable (USERNAME_FIELD settings) username
                 defaults db in
  out_result found = inr (user, created) →
  let cu := if created then (set_unusable_password user, false)
            else update_fields defaults user in
  let chain := run_user_callbacks rt settings attrs created cu.2 cu.1
                 (out_db found) in
  out_result chain = inr user' →
  save_error rt (users (out_db chain)) user' = Some Integrity →
  let o := sync_ldap_user rt settings ldap_usernames (cname, Dict attrs) db in
  let loop := for_fold ((cname, Dict attrs) :: rest)
                (sync_ldap_user rt settings) ldap_usernames db in
  let after := for_fold rest (sync_ldap_user rt settings)
                 (confirm settings username ldap_usernames) (out_db chain) in
  out_result o = inr (confirm settings username ldap_usernames)
  ∧ out_db o = out_db chain
  ∧ last (out_events o)
    = Some (Log ERROR (ErrorUpdatingUser username IntegrityError))
  ∧ (REMOVED_USER_CALLBACKS settings ≠ [] →
     username ∈ confirm settings username ldap_usernames)
  ∧ out_result loop = out_result after
  ∧ out_db loop = out_db after
  ∧ out_events loop = out_events o ++ out_events after.
Proof.
  intros Hdefaults Hname username found Hfound cu chain Hchain Hsave o loop
    after.
  assert (Ho : o = mkOutcome (out_db chain)
                 (drift_log username created (update_fields defaults user).2
                    ++ out_events chain
                    ++ [Log ERROR (ErrorUpdatingUser username IntegrityError)])
                 (inr (confirm settings username ldap_usernames))).
  { subst o.
    rewrite (sync_ldap_user_step rt settings cname attrs defaults name
               Hdefaults Hname).
    assert (Hf : found = mkOutcome (out_db found) [] (inr (user, created))).
    { rewrite <- Hfound, <- (get_or_create_events rt UserTable
        (USERNAME_FIELD settings) username defaults db).
      symmetry. apply outcome_eta. }
    rewrite (bind_attempt _ _ _ _ _ Hf), reconcile_run. cbv zeta.
    fold cu. fold chain. rewrite Hchain, save_user_run, Hsave. done. }
  split; [by rewrite Ho|]. split; [by rewrite Ho|]. split.
  { rewrite Ho. simpl. by rewrite !app_assoc, last_snoc. }
  split; [apply confirm_elem|].
  assert (Hres : out_result o = inr (confirm settings username ldap_usernames))
    by (by rewrite Ho).
  assert (Hdb : out_db o = out_db chain) by (by rewrite Ho).
  subst loop after. cbn [for_fold]. unfold o in Hres.
  rewrite (bind_inr _ _ _ _ Hres). outcome_simpl. fold o. by rewrite Hdb.
Qed.

Lemma bind_lift_inl {A B} e (k : A → M B) db :
  bind (lift (inl e)) k db = mkOutcome db [] (inl e).
Proof. reflexivity. Qed.

(** A step that returns had a mapped record with a username. *)
Lemma sync_ldap_user_returns rt settings ldap_usernames cname attrs db S :
  out_result (sync_ldap_user rt settings ldap_usernames (cname, Dict attrs) db)
    = inr S →
  ∃ defaults name,
    user_defaults rt settings attrs = inr defaults
    ∧ defaults !! USERNAME_FIELD settings = Some name.
Proof.
  unfold sync_ldap_user. cbn [snd].
  destruct (user_defaults rt settings attrs) as [e|defaults].
  { rewrite bind_lift_inl. outcome_simpl. by intros [=]. }
  rewrite bind_lift_inr. unfold getitem.
  destruct (defaults !! USERNAME_FIELD settings) as [name|] eqn:Hname.
  - intros _. by exists defaults, name.
  - rewrite bind_lift_inl. outcome_simpl. by intros [=].
Qed.

Lemma get_or_create_eta rt t field value defaults db :
  get_or_create rt t field value defaults db =
  mkOutcome (out_db (get_or_create rt t field value defaults db)) []
    (out_result (get_or_create rt t field value defaults db)).
Proof.
  pose proof (get_or_create_events rt t field value defaults db) as H.
  destruct (get_or_create rt t field value defaults db) as [db' evs r].
  simpl in *. by subst.
Qed.

(** What a step that returns did to the set: it added the username, or it
    logged that the user could not be created and left the set alone. *)
Lemma sync_ldap_user_confirms rt settings ldap_usernames cname attrs defaults
    name db S :
  user_defaults rt settings attrs = inr defaults →
  defaults !! USERNAME_FIELD settings = Some name →
  let o := sync_ldap_user rt settings ldap_usernames (cname, Dict attrs) db in
  out_result o = inr S →
  S = confirm settings (lower rt name) ldap_usernames
  ∨ (S = ldap_usernames
     ∧ ∃ e, out_events o = [Log ERROR (ErrorCreatingUser (lower rt name) e)]).
Proof.
  intros Hdefaults Hname o. subst o.
  rewrite (sync_ldap_user_step rt settings cname attrs defaults name
             Hdefaults Hname).
  rewrite (bind_attempt _ _ _ _ _ (get_or_create_eta _ _ _ _ _ _)).
  destruct (out_result (get_or_create _ _ _ _ _ _)) as [e|[user created]].
  - destruct (is_integrity_or_data e); [|done].
    rewrite bind_logger. outcome_simpl. intros [= <-]. right. eauto.
  - intros H. left. by eapply reconcile_result.
Qed.

Lemma sync_ldap_user_mono rt settings ldap_usernames entry db S :
  out_result (sync_ldap_user rt settings ldap_usernames entry db) = inr S →
  ldap_usernames ⊆ S.
Proof.
  destruct entry as [cname [attrs|]].
  - intros H.
    destruct (sync_ldap_user_returns _ _ _ _ _ _ _ H)
      as (defaults & name & Hd & Hn).
    destruct (sync_ldap_user_confirms _ _ _ _ _ _ _ _ _ Hd Hn H)
      as [-> | [-> _]]; [apply confirm_subseteq | done].
  - by intros [= <-].
Qed.

Lemma for_fold_sync_mono rt settings entries ldap_usernames db S :
  out_result (for_fold entries (sync_ldap_user rt settings) ldap_usernames db)
    = inr S →
  ldap_usernames ⊆ S.
Proof.
  revert ldap_usernames db.
  induction entries as [|entry rest IH]; intros S0 db; cbn [for_fold].
  - by intros [= <-].
  - intros H. apply bind_ok_inv in H as (S1 & H1 & H2).
    apply sync_ldap_user_mono in H1. apply IH in H2. set_solver.
Qed.

Lemma for_fold_cons_events {A S} (x : A) xs (body : S → A → M S) s db s1 :
  out_result (body s x db) = inr s1 →
  out_events (for_fold (x :: xs) body s db) =
  out_events (body s x db)
    ++ out_events (for_fold xs body s1 (out_db (body s x db))).
Proof. intros H. cbn [for_fold]. by rewrite (bind_inr _ _ _ _ H). Qed.

(** C4 (as the code has it): when removal hooks are configured and the loop
    over the directory's users returns, the set it returns holds the
    lower-cased username of every well-formed entry for which no "Error
    creating user" was logged, that is whose get_or_create returned, whether
    or not the save then failed. An entry whose get_or_create raised
    IntegrityError or DataError is logged and adds nothing to the set. *)
Theorem confirmed_set_invariant rt settings entries db S :
  REMOVED_USER_CALLBACKS settings ≠ [] →
  let loop := confirmed_usernames rt settings entries db in
  out_result loop = inr S →
  (∀ cname attrs defaults name,
     (cname, Dict attrs) ∈ entries →
     user_defaults rt settings attrs = inr defaults →
     defaults !! USERNAME_FIELD settings = Some name →
     (∀ e, Log ERROR (ErrorCreatingUser (lower rt name) e)
           ∉ out_events loop) →
     lower rt name ∈ S)
  ∧ (∀ cname attrs defaults name ldap_usernames db' e,
     user_defaults rt settings attrs = inr defaults →
     defaults !! USERNAME_FIELD settings = Some name →
     out_result (get_or_create rt UserTable (USERNAME_FIELD settings)
                   (lower rt name) defaults db') = inl e →
     is_integrity_or_data e = true →
     sync_ldap_user rt settings ldap_usernames (cname, Dict attrs) db'
     = mkOutcome
         (out_db (get_or_create rt UserTable (USERNAME_FIELD settings)
                    (lower rt name) defaults db'))
         [Log ERROR (ErrorCreatingUser (lower rt name) e)]
         (inr ldap_usernames)).
Proof.
  intros Hremoval loop Hloop. split.
  - subst loop. unfold confirmed_usernames in *.
    generalize dependent (∅ : gset ustr). revert db.
    induction entries as [|entry rest IH]; intros db S0 Hloop
      cname attrs defaults name Hin Hd Hn Hlog.
    { by apply not_elem_of_nil in Hin. }
    pose proof Hloop as Hsplit. cbn [for_fold] in Hsplit.
    apply bind_ok_inv in Hsplit as (S1 & H1 & H2).
    rewrite (for_fold_cons_events _ _ _ _ _ _ H1) in Hlog.
    apply elem_of_cons in Hin as [<- | Hin].
    + destruct (sync_ldap_user_confirms _ _ _ _ _ _ _ _ _ Hd Hn H1)
        as [-> | [_ [e He]]].
      * apply (for_fold_sync_mono _ _ _ _ _ _ H2). by apply confirm_elem.
      * exfalso. apply (Hlog e). rewrite He. set_solver.
    + eapply (IH _ _ H2); eauto.
      intros e He. apply (Hlog e). set_solver.
  - intros cname attrs defaults name S0 db' e Hd Hn Hg He.
    rewrite (sync_ldap_user_step rt settings cname attrs defaults name Hd Hn).
    rewrite (bind_attempt _ _ _ _ _ (get_or_create_eta _ _ _ _ _ _)).
    by rewrite Hg, He, bind_logger.
Qed.

(** ** Removal *)

Lemma call_removed_callback_run rt username user path db :
  call_removed_callback rt username user path db =
  match import_removed_hook rt path with
  | None => mkOutcome db [] (inl ImportError)
  | Some hook =>
      match (hook user db).2 with
      | inl e => mkOutcome (hook user db).1 [RemovedUserCallback path user]
                   (inl e)
      | inr user' =>
          mkOutcome (hook user db).1
            [RemovedUserCallback path user;
             Log DEBUG (CalledFor path username)]
            (inr user')
      end
  end.
Proof.
  unfold call_removed_callback.
  destruct (import_removed_hook rt path) as [hook|]; [|done].
  rewrite bind_emit. unfold prepend, bind, run_removed_hook. simpl.
  by destruct (hook user db) as [db' [e|user']].
Qed.

Lemma called_for_app evs1 evs2 :
  called_for (evs1 ++ evs2) = called_for evs1 ++ called_for evs2.
Proof. apply omap_app. Qed.

Lemma removed_calls_app evs1 evs2 :
  removed_calls (evs1 ++ evs2) = removed_calls evs1 ++ removed_calls evs2.
Proof. apply omap_app. Qed.

(** The chain of lines 127-130 for one username, when it returns: every
    configured hook was called once, in order, the first one on [user], and
    each call was logged under the username. *)
Lemma removed_chain_calls rt username paths user db user' :
  let o := for_fold paths (call_removed_callback rt username) user db in
  out_result o = inr user' →
  called_for (out_events o) = (λ path, (path, username)) <$> paths
  ∧ (removed_calls (out_events o)).*1 = paths
  ∧ head (removed_calls (out_events o)) = (λ path, (path, user)) <$> head paths.
Proof.
  revert user db. induction paths as [|path paths IH]; intros user db;
    cbn [for_fold].
  { by intros _. }
  pose proof (call_removed_callback_run rt username user path db) as Hrun.
  destruct (import_removed_hook rt path) as [hook|].
  - destruct (hook user db) as [db' [e|user1]]; cbn [fst snd] in Hrun.
    + rewrite (bind_inl _ _ _ e) by (by rewrite Hrun). by intros [=].
    + rewrite (bind_inr _ _ _ user1) by (by rewrite Hrun).
      rewrite Hrun. outcome_simpl. intros Hrest.
      destruct (IH user1 db' Hrest) as (Hlog & Hpaths & _).
      rewrite called_for_app, removed_calls_app, Hlog.
      repeat split; try done.
      rewrite fmap_app, Hpaths. done.
  - rewrite (bind_inl _ _ _ ImportError) by (by rewrite Hrun). by intros [=].
Qed.

Lemma get_run field value db :
  get field value db =
  match List.filter (exact_match field value) (users db) with
  | [] => mkOutcome db [] (inl DoesNotExist)
  | [r] => mkOutcome db [] (inr r)
  | _ => mkOutcome db [] (inl MultipleObjectsReturned)
  end.
Proof. reflexivity. Qed.

(** Lines 126-130 for one username, when they return: the row was the only
    one with exactly this username, and the chain ran on it. *)
Lemma removed_user_calls rt settings username db :
  let o := removed_user rt settings username db in
  out_result o = inr tt →
  called_for (out_events o)
    = (λ path, (path, username)) <$> REMOVED_USER_CALLBACKS settings
  ∧ (removed_calls (out_events o)).*1 = REMOVED_USER_CALLBACKS settings
  ∧ ∃ user,
      List.filter (exact_match (USERNAME_FIELD settings) username) (users db)
        = [user]
      ∧ head (removed_calls (out_events o))
        = (λ path, (path, user)) <$> head (REMOVED_USER_CALLBACKS settings).
Proof.
  unfold removed_user.
  pose proof (get_run (USERNAME_FIELD settings) username db) as Hget.
  destruct (List.filter _ (users db)) as [|user [|user2 more]] eqn:Hrows.
  - rewrite (bind_inl _ _ _ DoesNotExist) by (by rewrite Hget). by intros [=].
  - rewrite (bind_inr _ _ _ user) by (by rewrite Hget).
    rewrite Hget. outcome_simpl.
    destruct (out_result (for_fold (REMOVED_USER_CALLBACKS settings)
                (call_removed_callback rt username) user db))
      as [e|user'] eqn:Hchain.
    + rewrite (bind_inl _ _ _ _ Hchain). by intros [=].
    + rewrite (bind_inr _ _ _ _ Hchain). outcome_simpl. intros _.
      rewrite app_nil_r.
      destruct (removed_chain_calls rt username _ user db user' Hchain)
        as (Hlog & Hpaths & Hhead).
      repeat split; try done. by exists user.
  - rewrite (bind_inl _ _ _ MultipleObjectsReturned) by (by rewrite Hget).
    by intros [=].
Qed.

Lemma for_each_removed_user rt settings names db :
  let o := for_each names (removed_user rt settings) db in
  out_result o = inr tt →
  called_for (out_events o)
    = flat_map (λ username, (λ path, (path, username))
                              <$> REMOVED_USER_CALLBACKS settings) names
  ∧ (removed_calls (out_events o)).*1
    = flat_map (λ _, REMOVED_USER_CALLBACKS settings) names.
Proof.
  revert db. induction names as [|username names IH]; intros db;
    cbn [for_each flat_map].
  { by intros _. }
  destruct (out_result (removed_user rt settings username db)) as [e|[]]
    eqn:Hfirst.
  - rewrite (bind_inl _ _ _ _ Hfirst). by intros [=].
  - rewrite (bind_inr _ _ _ _ Hfirst). outcome_simpl. intros Hrest.
    destruct (removed_user_calls rt settings username db Hfirst)
      as (Hlog & Hpaths & _).
    destruct (IH _ Hrest) as (Hlogs & Hpathss).
    rewrite called_for_app, removed_calls_app, fmap_app.
    by rewrite Hlog, Hpaths, Hlogs, Hpathss.
Qed.

(** C6: with removal hooks configured, a removal phase that returns has
    worked on exactly the stored usernames that are not in the confirmed
    set, each once: for each of them every configured hook was called, in
    the configured order, and logged under that username; no call was made
    for a confirmed username; and the hooks of a username start on the row
    that [get] found by exact match. *)
Theorem removal_calls_difference rt settings ldap_usernames db :
  REMOVED_USER_CALLBACKS settings ≠ [] →
  let o := removed_users rt settings ldap_usernames db in
  let django_usernames : gset ustr :=
    list_to_set (omap (λ r, fields r !! USERNAME_FIELD settings) (users db)) in
  let local_only := elements (django_usernames ∖ ldap_usernames) in
  out_result o = inr tt →
  called_for (out_events o)
    = flat_map (λ username, (λ path, (path, username))
                              <$> REMOVED_USER_CALLBACKS settings) local_only
  ∧ (removed_calls (out_events o)).*1
    = flat_map (λ _, REMOVED_USER_CALLBACKS settings) local_only
  ∧ NoDup local_only
  ∧ (∀ username,
       username ∈ local_only ↔
       (∃ r, r ∈ users db ∧ fields r !! USERNAME_FIELD settings = Some username)
       ∧ username ∉ ldap_usernames)
  ∧ (∀ path username,
       username ∈ ldap_usernames →
       (path, username) ∉ called_for (out_events o))
  ∧ (∀ username db',
       let step := removed_user rt settings username db' in
       out_result step = inr tt →
       ∃ user,
         List.filter (exact_match (USERNAME_FIELD settings) username)
           (users db') = [user]
         ∧ head (removed_calls (out_events step))
           = (λ path, (path, user))
               <$> head (REMOVED_USER_CALLBACKS settings)).
Proof.
  intros Hconfigured o django_usernames local_only Hok.
  assert (Hmem : ∀ username,
    username ∈ local_only ↔
    (∃ r, r ∈ users db ∧ fields r !! USERNAME_FIELD settings = Some username)
    ∧ username ∉ ldap_usernames).
  { intros username. subst local_only django_usernames.
    rewrite elem_of_elements, elem_of_difference, elem_of_list_to_set,
      list_elem_of_omap.
    done. }
  assert (Ho : o = for_each local_only (removed_user rt settings) db).
  { subst o. unfold removed_users.
    destruct (REMOVED_USER_CALLBACKS settings); [done|]. cbn [truthy].
    unfold values_list. unfold bind at 1. outcome_simpl. apply outcome_eta. }
  rewrite Ho in Hok |- *.
  destruct (for_each_removed_user rt settings local_only db Hok)
    as (Hlog & Hpaths).
  split; [exact Hlog|]. split; [exact Hpaths|].
  split; [apply NoDup_elements|]. split; [exact Hmem|]. split.
  - intros path username Hin. rewrite Hlog, list_elem_of_In, in_flat_map.
    intros (username' & Hin' & Hpair).
    apply list_elem_of_In, Hmem in Hin' as [_ Hnot].
    apply list_elem_of_In, list_elem_of_fmap in Hpair as (p & [= _ ->] & _).
    done.
  - intros username db' step Hstep.
    by destruct (removed_user_calls rt settings username db' Hstep)
      as (_ & _ & H).
Qed.

(** ** Group sync run twice *)

Lemma created_groups_app evs1 evs2 :
  created_groups (evs1 ++ evs2) = created_groups evs1 ++ created_groups evs2.
Proof. apply omap_app. Qed.

Section GroupStep.

Context (rt : Runtime) (settings : SyncSettings).
Hypothesis iexact_refl : ∀ s, iexact rt s s = true.

Local Abbreviation step := (group_step rt settings).
Local Abbreviation stable := (group_stable rt settings).

Lemma sync_ldap_group_dict cname attrs db :
  sync_ldap_group rt settings (cname, Dict attrs) db = step db.
Proof. reflexivity. Qed.

Lemma sync_ldap_group_not_dict cname db :
  sync_ldap_group rt settings (cname, NotDict) db = mkOutcome db [] (inr tt).
Proof. reflexivity. Qed.

Lemma step_returns db :
  out_result (step db) = inr tt →
  ∃ defaults groupname,
    defaults !! GROUPNAME_FIELD settings = Some groupname
    ∧ ∀ db',
        step db' =
        bind (attempt (get_or_create rt GroupTable (GROUPNAME_FIELD settings)
                         groupname defaults))
          (λ r, match r with
                | inl e =>
                    if is_integrity_or_data e
                    then logger ERROR (ErrorCreatingGroup groupname e)
                    else raise e
                | inr (group, created) =>
                    if created then logger DEBUG (CreatedGroup groupname)
                    else ret tt
                end) db'.
Proof.
  unfold step, sync_ldap_group. cbn [snd].
  destruct (group_defaults rt settings ∅) as [e|defaults].
  { rewrite bind_lift_inl. outcome_simpl. by intros [=]. }
  rewrite bind_lift_inr. unfold getitem.
  destruct (defaults !! GROUPNAME_FIELD settings) as [groupname|] eqn:Hname.
  - intros _. exists defaults, groupname. split; [done|].
    intros db'. rewrite bind_lift_inr, Hname. by rewrite bind_lift_inr.
  - rewrite bind_lift_inl. outcome_simpl. by intros [=].
Qed.

(** After a step that returned, the database is stable: the group is
    there, or it cannot be created. *)
Lemma step_then_stable db :
  out_result (step db) = inr tt → stable (out_db (step db)).
Proof.
  intros Hok. destruct (step_returns db Hok) as (d & g & Hg & Hstep).
  unfold stable. rewrite !Hstep. rewrite Hstep in Hok.
  destruct (List.filter (iexact_match rt (GROUPNAME_FIELD settings) g)
              (groups db)) as [|r [|r' rows]] eqn:Hrows.
  - destruct (insert_error rt GroupTable (groups db) d) as [e|] eqn:Hins.
    + pose proof (get_or_create_rejected rt GroupTable _ g d db e Hrows Hins)
        as Hrun.
      rewrite !(bind_attempt _ _ _ _ _ Hrun).
      destruct e; cbn [db_exn is_integrity_or_data logger emit out_db];
        by rewrite !(bind_attempt _ _ _ _ _ Hrun).
    + pose proof (get_or_create_inserted rt GroupTable _ g d db Hrows Hins)
        as Hrun.
      rewrite !(bind_attempt _ _ _ _ _ Hrun). cbn [logger emit out_db].
      assert (Hfound :
        List.filter (iexact_match rt (GROUPNAME_FIELD settings) g)
          (table_rows GroupTable
             (add_row GroupTable (mkRow (next_pk db) d false) db))
        = [mkRow (next_pk db) d false]).
      { cbn [table_rows add_row groups]. rewrite List.filter_app, Hrows.
        cbn [List.filter app]. unfold iexact_match at 1. cbn [fields].
        by rewrite Hg, iexact_refl. }
      by rewrite !(bind_attempt _ _ _ _ _
                     (get_or_create_found rt GroupTable _ g d _ _ Hfound)).
  - pose proof (get_or_create_found rt GroupTable _ g d db r Hrows) as Hrun.
    by rewrite !(bind_attempt _ _ _ _ _ Hrun).
  - exfalso. revert Hok. unfold bind, attempt, get_or_create.
    cbn [table_rows]. by rewrite Hrows.
Qed.

(** On a stable database the loop changes nothing and creates nothing. *)
Lemma stable_for_each entries db :
  stable db →
  let o := for_each entries (sync_ldap_group rt settings) db in
  out_db o = db ∧ out_result o = inr tt ∧ created_groups (out_events o) = [].
Proof.
  intros (Hdb & Hres & Hnew).
  induction entries as [|[cname [attrs|]] rest IH]; cbn [for_each].
  - done.
  - assert (H1 : out_result (sync_ldap_group rt settings (cname, Dict attrs) db)
                 = inr tt) by (by rewrite sync_ldap_group_dict).
    rewrite (bind_inr _ _ _ _ H1), sync_ldap_group_dict. outcome_simpl.
    rewrite Hdb, created_groups_app, Hnew. done.
  - assert (H1 : out_result (sync_ldap_group rt settings (cname, NotDict) db)
                 = inr tt) by done.
    rewrite (bind_inr _ _ _ _ H1), sync_ldap_group_not_dict. outcome_simpl.
    done.
Qed.

(** After a loop that returned, the loop changes nothing and creates
    nothing. *)
Lemma for_each_then_settled entries db :
  let o1 := for_each entries (sync_ldap_group rt settings) db in
  out_result o1 = inr tt →
  let o2 := for_each entries (sync_ldap_group rt settings) (out_db o1) in
  out_db o2 = out_db o1
  ∧ out_result o2 = inr tt
  ∧ created_groups (out_events o2) = [].
Proof.
  cbv zeta.
  assert (Hmain : ∀ db,
    out_result (for_each entries (sync_ldap_group rt settings) db) = inr tt →
    stable (out_db (for_each entries (sync_ldap_group rt settings) db))
    ∨ (out_db (for_each entries (sync_ldap_group rt settings) db) = db
       ∧ Forall (λ entry, entry.2 = NotDict) entries)).
  { clear db. induction entries as [|[cname [attrs|]] rest IH]; intros db;
      cbn [for_each].
    - intros _. right. by split.
    - intros Hok. left.
      destruct (bind_ok_inv _ _ _ _ Hok) as ([] & H1 & H2).
      rewrite (bind_inr _ _ _ _ H1). outcome_simpl.
      rewrite sync_ldap_group_dict in H1, H2 |- *.
      pose proof (step_then_stable db H1) as Hst.
      destruct (stable_for_each rest _ Hst) as (-> & _ & _). exact Hst.
    - assert (H1 : out_result (sync_ldap_group rt settings (cname, NotDict) db)
                   = inr tt) by done.
      rewrite (bind_inr _ _ _ _ H1), sync_ldap_group_not_dict. outcome_simpl.
      intros Hok. destruct (IH db Hok) as [Hst | [Hdb Hall]]; [by left|].
      right. split; [done|]. by constructor. }
  intros Hok. destruct (Hmain db Hok) as [Hst | [Hdb Hall]].
  - by apply stable_for_each.
  - rewrite Hdb. clear Hok Hdb Hmain.
    induction Hall as [|[cname attrs] rest Hnd _ IH]; [done|].
    cbn [snd] in Hnd. subst attrs. cbn [for_each].
    assert (H1 : out_result (sync_ldap_group rt settings (cname, NotDict) db)
                 = inr tt) by done.
    rewrite (bind_inr _ _ _ _ H1), sync_ldap_group_not_dict. outcome_simpl.
    exact IH.
Qed.

End GroupStep.

(** C8: when the first run of group sync returns, a second run over the same
    directory returns too, leaves the database as the first run left it (so
    every group is still there with the same fields) and logs no creation. *)
Theorem sync_ldap_groups_idempotent rt settings ldap_groups db :
  (∀ s, iexact rt s s = true) →
  let first := sync_ldap_groups rt settings ldap_groups db in
  out_result first = inr tt →
  let second := sync_ldap_groups rt settings ldap_groups (out_db first) in
  out_result second = inr tt
  ∧ out_db second = out_db first
  ∧ created_groups (out_events second) = [].
Proof.
  intros Hrefl first Hfirst second. subst first second.
  unfold sync_ldap_groups in *.
  destruct (bind_ok_inv _ _ _ _ Hfirst) as ([] & H1 & _).
  rewrite (bind_inr _ _ _ _ H1). outcome_simpl.
  destruct (for_each_then_settled rt settings Hrefl ldap_groups db H1)
    as (Hdb & Hres & Hnew).
  rewrite (bind_inr _ _ _ _ Hres). outcome_simpl.
  rewrite created_groups_app, Hnew, Hdb. done.
Qed.

(** ** Runs *)

Lemma iexact_ascii_refl s : iexact_ascii s s = true.
Proof. unfold iexact_ascii. by apply bool_decide_eq_true. Qed.

(** C4, a run that breaks the claim: the username is one character too long
    for its column, get_or_create raises DataError, the error is logged and
    the confirmed set stays empty although removal hooks are configured. *)
Lemma rejected_user_not_confirmed :
  let loop :=
    confirmed_usernames plain_runtime user_settings [long_name] empty_db in
  REMOVED_USER_CALLBACKS user_settings ≠ []
  ∧ out_result loop = inr ∅
  ∧ out_events loop
    = [Log ERROR (ErrorCreatingUser (uni "a_very_long_directory_user_name")
                    DataError)].
Proof. vm_compute. by repeat split. Qed.

(** The entry [JDoe] is created, and [jdoe] is in the confirmed set. *)
Lemma confirmed_set_invariant_witness :
  REMOVED_USER_CALLBACKS user_settings ≠ []
  ∧ out_result (confirmed_usernames plain_runtime user_settings [jdoe] empty_db)
    = inr {[ uni "jdoe" ]}
  ∧ uni "jdoe" ∈ ({[ uni "jdoe" ]} : gset ustr).
Proof.
  assert (H1 : REMOVED_USER_CALLBACKS user_settings ≠ []) by done.
  assert (H2 : out_result (confirmed_usernames plain_runtime user_settings
                             [jdoe] empty_db) = inr {[ uni "jdoe" ]})
    by (by vm_compute).
  split; [exact H1|]. split; [exact H2|].
  refine (proj1 (confirmed_set_invariant plain_runtime user_settings [jdoe]
                   empty_db {[ uni "jdoe" ]} H1 H2)
            "uid=JDoe,dc=example"
            {[ "uid" := [raw "JDoe"]; "mail" := [raw "jdoe@example.com"] ]}
            {[ "username" := uni "JDoe"; "email" := uni "jdoe@example.com" ]}
            (uni "JDoe") _ _ _ _).
  - apply list_elem_of_here.
  - by vm_compute.
  - by vm_compute.
  - intros e.
    assert (Hev : out_events (confirmed_usernames plain_runtime user_settings
                                [jdoe] empty_db)
                  = [Log DEBUG (CreatedUser (uni "jdoe"))]) by (by vm_compute).
    rewrite Hev. intros Hin. apply list_elem_of_singleton in Hin.
    discriminate Hin.
Defined.

(** Local users [a], [b], [c], of which [a] and [b] are confirmed: the two
    hooks are called for [c], once each and in order, and for nobody else. *)
Lemma removal_calls_difference_witness :
  let o := removed_users plain_runtime removal_settings
             {[ uni "a"; uni "b" ]} abc_db in
  REMOVED_USER_CALLBACKS removal_settings ≠ []
  ∧ out_result o = inr tt
  ∧ called_for (out_events o)
    = [("hooks.notify", uni "c"); ("hooks.audit", uni "c")].
Proof.
  intros o.
  assert (H1 : REMOVED_USER_CALLBACKS removal_settings ≠ []) by done.
  assert (H2 : out_result o = inr tt) by (by vm_compute).
  split; [exact H1|]. split; [exact H2|].
  destruct (removal_calls_difference plain_runtime removal_settings
              {[ uni "a"; uni "b" ]} abc_db H1 H2) as (Hlog & _).
  fold o in Hlog. rewrite Hlog. by vm_compute.
Defined.

(** [bob] is in the store under an old address: the hook is called with
    [created = False] and [updated = True]. *)
Lemma user_callback_flags_witness :
  let o := sync_ldap_user hook_runtime hook_settings ∅
             ("uid=bob,dc=example", Dict bob_attributes) bob_db in
  user_defaults hook_runtime hook_settings bob_attributes = inr bob_defaults
  ∧ bob_defaults !! USERNAME_FIELD hook_settings = Some (uni "bob")
  ∧ (update_fields bob_defaults bob_row).2 = true
  ∧ Forall (λ c, call_created c = false ∧ call_updated c = true)
      (user_calls (out_events o)).
Proof.
  intros o.
  assert (H1 : user_defaults hook_runtime hook_settings bob_attributes
               = inr bob_defaults) by (by vm_compute).
  assert (H2 : bob_defaults !! USERNAME_FIELD hook_settings = Some (uni "bob"))
    by (by vm_compute).
  assert (H3 : (update_fields bob_defaults bob_row).2 = true)
    by (by vm_compute).
  split; [exact H1|]. split; [exact H2|]. split; [exact H3|].
  destruct (user_callback_flags hook_runtime hook_settings "uid=bob,dc=example"
              bob_attributes bob_defaults (uni "bob") ∅ bob_db H1 H2)
    as [Hfound _].
  destruct (Hfound bob_row) as (_ & _ & _ & Hflags & _); [by vm_compute|].
  rewrite H3 in Hflags. exact Hflags.
Defined.

(** Two groups in the directory, two runs. *)
Lemma sync_ldap_groups_idempotent_witness :
  let first :=
    sync_ldap_groups plain_runtime group_settings [admins; staff] empty_db in
  let second :=
    sync_ldap_groups plain_runtime group_settings [admins; staff]
      (out_db first) in
  out_result first = inr tt
  ∧ out_result second = inr tt
  ∧ out_db second = out_db first
  ∧ created_groups (out_events second) = [].
Proof.
  intros first second.
  assert (H1 : out_result first = inr tt) by (by vm_compute).
  split; [exact H1|].
  exact (sync_ldap_groups_idempotent plain_runtime group_settings
           [admins; staff] empty_db iexact_ascii_refl H1).
Defined.

(** [bob] is new; the hook gives him the address [alice] holds, and the save
    violates the uniqueness of [email]. The row keeps the address it was
    created with, and [bob] is confirmed. *)
Lemma failed_save_is_isolated_witness :
  let o := sync_ldap_user hook_runtime hook_settings ∅
             ("uid=bob,dc=example", Dict bob_attributes) alice_db in
  out_result o = inr {[ uni "bob" ]}
  ∧ last (out_events o)
    = Some (Log ERROR (ErrorUpdatingUser (uni "bob") IntegrityError))
  ∧ omap (λ r, fields r !! "email") (users (out_db o))
    = [uni "office@example.com"; uni "bob@example.com"].
Proof.
  intros o.
  destruct (failed_save_is_isolated hook_runtime hook_settings
              "uid=bob,dc=example" bob_attributes bob_defaults (uni "bob")
              ∅ alice_db (mkRow 2 bob_defaults false) true
              (setattr (mkRow 2 bob_defaults true) "email"
                 (uni "office@example.com")) [])
    as (Hres & Hdb & Hlast & _).
  - by vm_compute.
  - by vm_compute.
  - by vm_compute.
  - by vm_compute.
  - by vm_compute.
  - fold o in Hres, Hdb, Hlast. split; [|split].
    + rewrite Hres. by vm_compute.
    + exact Hlast.
    + rewrite Hdb. by vm_compute.
Defined.

(** * Further properties of the command *)

(** ** Entries that are not dictionaries *)

Lemma bind_ext {A B} (m : M A) (k k' : A → M B) db :
  (∀ a db', k a db' = k' a db') → bind m k db = bind m k' db.
Proof.
  intros Hk. unfold bind. destruct (out_result (m db)); [done|].
  by rewrite Hk.
Qed.

Lemma bind_cong {A B} (m m' : M A) (k : A → M B) db :
  m db = m' db → bind m k db = bind m' k db.
Proof. intros Hm. unfold bind. by rewrite Hm. Qed.

Lemma for_fold_users_dicts rt settings entries ldap_usernames db :
  for_fold entries (sync_ldap_user rt settings) ldap_usernames db =
  for_fold (List.filter is_dict entries) (sync_ldap_user rt settings)
    ldap_usernames db.
Proof.
  revert ldap_usernames db.
  induction entries as [|[cname [attrs|]] rest IH]; intros S db.
  - done.
  - cbn [List.filter is_dict snd for_fold]. apply bind_ext. exact IH.
  - cbn [List.filter is_dict snd for_fold].
    change (sync_ldap_user rt settings S (cname, NotDict)) with (ret S).
    by rewrite bind_ret.
Qed.

(** The user sweep passes over every entry whose attributes are not a
    dictionary: the run is the run on the well-formed entries alone, event
    for event. *)
Theorem sync_ldap_users_skips_malformed rt settings ldap_users db :
  sync_ldap_users rt settings ldap_users db =
  sync_ldap_users rt settings (List.filter is_dict ldap_users) db.
Proof.
  unfold sync_ldap_users, confirmed_usernames.
  apply bind_cong, for_fold_users_dicts.
Qed.

Lemma for_each_groups_dicts rt settings entries db :
  for_each entries (sync_ldap_group rt settings) db =
  for_each (List.filter is_dict entries) (sync_ldap_group rt settings) db.
Proof.
  revert db. induction entries as [|[cname [attrs|]] rest IH]; intros db.
  - done.
  - cbn [List.filter is_dict snd for_each]. apply bind_ext. intros _. exact IH.
  - cbn [List.filter is_dict snd for_each].
    change (sync_ldap_group rt settings (cname, NotDict)) with (ret tt).
    by rewrite bind_ret.
Qed.

(** The group sweep passes over them in the same way. *)
Theorem sync_ldap_groups_skips_malformed rt settings ldap_groups db :
  sync_ldap_groups rt settings ldap_groups db =
  sync_ldap_groups rt settings (List.filter is_dict ldap_groups) db.
Proof.
  unfold sync_ldap_groups. apply bind_cong, for_each_groups_dicts.
Qed.

(** ** What a run leaves in the store *)

Section Changes.

Context (R : Db → Db → Prop) `{!Reflexive R, !Transitive R}.

Lemma changes_ret {A} (a : A) : changes_by R (ret a).
Proof. intros db. simpl. reflexivity. Qed.

Lemma changes_raise {A} e : changes_by R (@raise A e).
Proof. intros db. simpl. reflexivity. Qed.

Lemma changes_lift {A} (r : Exn + A) : changes_by R (lift r).
Proof. intros db. simpl. reflexivity. Qed.

Lemma changes_emit ev : changes_by R (emit ev).
Proof. intros db. simpl. reflexivity. Qed.

Lemma changes_bind {A B} (m : M A) (k : A → M B) :
  changes_by R m → (∀ a, changes_by R (k a)) → changes_by R (bind m k).
Proof.
  intros Hm Hk db. unfold bind.
  destruct (out_result (m db)) as [e|a]; simpl; [apply Hm|].
  etransitivity; [apply Hm | apply Hk].
Qed.

Lemma changes_attempt {A} (m : M A) : changes_by R m → changes_by R (attempt m).
Proof. intros Hm db. apply Hm. Qed.

Lemma changes_for_each {A} (xs : list A) (body : A → M unit) :
  (∀ x, changes_by R (body x)) → changes_by R (for_each xs body).
Proof.
  intros Hb. induction xs as [|x rest IH]; simpl.
  - apply changes_ret.
  - apply changes_bind; auto.
Qed.

Lemma changes_for_fold {A S} (xs : list A) (body : S → A → M S) s :
  (∀ s x, changes_by R (body s x)) → changes_by R (for_fold xs body s).
Proof.
  intros Hb. revert s. induction xs as [|x rest IH]; intros s; simpl.
  - apply changes_ret.
  - apply changes_bind; auto.
Qed.

Lemma changes_get field value : changes_by R (get field value).
Proof.
  intros db. unfold get.
  destruct (List.filter _ _) as [|r [|r' rows]]; simpl; reflexivity.
Qed.

Lemma changes_values_list field : changes_by R (values_list field).
Proof. intros db. simpl. reflexivity. Qed.

End Changes.

Create HintDb changes.
#[export] Hint Resolve changes_ret changes_raise changes_lift changes_emit
  changes_get changes_values_list : changes.

(** One step of a proof that a command changes the store only in one way. *)
Ltac changes_step :=
  match goal with
  | |- changes_by _ (bind _ _) =>
      apply changes_bind; try typeclasses eauto; [|intros]
  | |- changes_by _ (for_each _ _) =>
      apply changes_for_each; try typeclasses eauto; intros
  | |- changes_by _ (for_fold _ _ _) =>
      apply changes_for_fold; try typeclasses eauto; intros
  | |- changes_by _ (attempt _) => apply changes_attempt
  | |- changes_by _ (logger _ _) => apply changes_emit; typeclasses eauto
  | |- changes_by _ (match ?x with _ => _ end) => destruct x
  | |- changes_by _ _ => solve [eauto with changes typeclass_instances]
  end.

Ltac changes := repeat changes_step.

#[export] Instance groups_appended_refl : Reflexive groups_appended.
Proof. intros db. by split. Qed.

#[export] Instance groups_appended_trans : Transitive groups_appended.
Proof.
  intros db1 db2 db3 [Hu1 Hg1] [Hu2 Hg2]. split; [congruence|].
  by etransitivity.
Qed.

#[export] Instance keeps_rows_refl : Reflexive keeps_rows.
Proof. intros db. by split. Qed.

#[export] Instance keeps_rows_trans : Transitive keeps_rows.
Proof.
  intros db1 db2 db3 [Hg1 Hu1] [Hg2 Hu2]. split; by etransitivity.
Qed.

Lemma get_or_create_group_appends rt field value defaults :
  changes_by groups_appended (get_or_create rt GroupTable field value defaults).
Proof.
  intros db. unfold get_or_create.
  destruct (List.filter _ _) as [|r [|r' rows]]; try reflexivity.
  destruct (insert_error _ _ _ _); [reflexivity|].
  split; [done|]. by exists [mkRow (next_pk db) defaults false].
Qed.

(** Group sync is create-only on every run, also one that ends in an
    exception: the user table is untouched, and the group table is the old
    one with rows added at its end, so no group is changed or removed. *)
Theorem sync_ldap_groups_appends rt settings ldap_groups db :
  let o := sync_ldap_groups rt settings ldap_groups db in
  users (out_db o) = users db
  ∧ groups db `prefix_of` groups (out_db o).
Proof.
  assert (H : changes_by groups_appended
                (sync_ldap_groups rt settings ldap_groups)).
  { unfold sync_ldap_groups, sync_ldap_group.
    changes; apply get_or_create_group_appends. }
  exact (H db).
Qed.

Lemma store_row_keeps_pks r rows :
  (pk <$> rows) `prefix_of` (pk <$> store_row r rows).
Proof.
  induction rows as [|x rows IH]; simpl.
  - apply prefix_nil.
  - case_decide as Hpk; simpl.
    + by rewrite Hpk.
    + by apply prefix_cons.
Qed.

Lemma get_or_create_keeps_rows rt t field value defaults :
  changes_by keeps_rows (get_or_create rt t field value defaults).
Proof.
  intros db. unfold get_or_create.
  destruct (List.filter _ _) as [|r [|r' rows]]; try reflexivity.
  destruct (insert_error _ _ _ _); [reflexivity|].
  destruct t; split; simpl; try done.
  - by exists [mkRow (next_pk db) defaults false].
  - rewrite fmap_app. by eexists.
Qed.

Lemma save_keeps_rows rt user : changes_by keeps_rows (save rt user).
Proof.
  intros db. unfold save. destruct (save_error _ _ _); [reflexivity|].
  split; simpl; [done | apply store_row_keeps_pks].
Qed.

Lemma search_keeps_rows rt filter attributes :
  changes_by keeps_rows (search rt filter attributes).
Proof. unfold search. changes. Qed.

(** With no hooks configured the command takes nothing from the store,
    whatever the directory returns and however the run ends: every group
    row is still there, and every user is still there under its primary
    key, in the same order. *)
Theorem handle_without_hooks_keeps_rows rt settings db :
  USER_CALLBACKS settings = [] →
  REMOVED_USER_CALLBACKS settings = [] →
  let o := handle rt settings db in
  groups db `prefix_of` groups (out_db o)
  ∧ (pk <$> users db) `prefix_of` (pk <$> users (out_db o)).
Proof.
  intros Hsync Hremoved.
  assert (Hgroups : ∀ entries,
    changes_by keeps_rows (sync_ldap_groups rt settings entries)).
  { intros entries. unfold sync_ldap_groups, sync_ldap_group.
    changes; apply get_or_create_keeps_rows. }
  assert (Husers : ∀ entries,
    changes_by keeps_rows (sync_ldap_users rt settings entries)).
  { intros entries.
    unfold sync_ldap_users, confirmed_usernames, sync_ldap_user, removed_users,
      reconcile, run_user_callbacks, created_or_updated, save_user.
    rewrite Hsync, Hremoved. cbn [truthy for_fold].
    changes; first [apply get_or_create_keeps_rows | apply save_keeps_rows]. }
  assert (H : changes_by keeps_rows (handle rt settings)).
  { unfold handle, unbind. changes; auto using search_keeps_rows. }
  exact (H db).
Qed.

(** ** How many groups a run creates *)

Lemma group_step_cases rt settings db :
  let o := group_step rt settings db in
  (out_db o = db ∧ created_groups (out_events o) = [])
  ∨ (∃ r g, out_db o = add_row GroupTable r db
            ∧ created_groups (out_events o) = [g]
            ∧ out_result o = inr tt).
Proof.
  unfold group_step, sync_ldap_group. cbn [snd].
  destruct (group_defaults rt settings ∅) as [e|d].
  { left. by rewrite bind_lift_inl. }
  rewrite bind_lift_inr. unfold getitem.
  destruct (d !! GROUPNAME_FIELD settings) as [g|].
  2: { left. by rewrite bind_lift_inl. }
  rewrite bind_lift_inr.
  rewrite (bind_attempt _ _ _ _ _ (get_or_create_eta _ _ _ _ _ _)).
  unfold get_or_create.
  destruct (List.filter _ _) as [|r [|r' rows]]; cbn [table_rows].
  - destruct (insert_error rt GroupTable (groups db) d) as [[|]|];
      outcome_simpl; cbn [db_exn is_integrity_or_data]; [by left..|].
    right. by exists (mkRow (next_pk db) d false), g.
  - by left.
  - by left.
Qed.

(** The loop of group sync either creates nothing and leaves the store, or
    creates one group. *)
Lemma for_each_group_creates_once rt settings entries db :
  (∀ s, iexact rt s s = true) →
  let o := for_each entries (sync_ldap_group rt settings) db in
  (out_db o = db ∧ created_groups (out_events o) = [])
  ∨ (∃ r g, out_db o = add_row GroupTable r db
            ∧ created_groups (out_events o) = [g]).
Proof.
  intros Hrefl. revert db.
  induction entries as [|[cname [attrs|]] rest IH]; intros db; cbn [for_each].
  - by left.
  - rewrite (bind_cong _ (group_step rt settings) _ db) by done.
    destruct (group_step_cases rt settings db) as [[Hdb Hnew] | H].
    + destruct (out_result (group_step rt settings db)) as [e|[]] eqn:Hres.
      * rewrite (bind_inl _ _ _ _ Hres). outcome_simpl. by left.
      * rewrite (bind_inr _ _ _ _ Hres). outcome_simpl.
        rewrite created_groups_app, Hnew, Hdb. apply IH.
    + destruct H as (r & g & Hdb & Hnew & Hres).
      rewrite (bind_inr _ _ _ _ Hres). outcome_simpl.
      pose proof (step_then_stable rt settings Hrefl db Hres) as Hst.
      destruct (stable_for_each rt settings rest _ Hst) as (Hdb' & _ & Hnew').
      right. exists r, g.
      by rewrite created_groups_app, Hnew, Hnew', Hdb', Hdb.
  - change (sync_ldap_group rt settings (cname, NotDict)) with (ret tt).
    rewrite bind_ret. apply IH.
Qed.

(** A run of group sync creates at most one group, however many groups the
    directory returns: the mapped record does not depend on the entry, so
    after the first creation every entry finds that group. The store's
    case-insensitive match is taken to be reflexive. *)
Theorem sync_ldap_groups_creates_at_most_one rt settings ldap_groups db :
  (∀ s, iexact rt s s = true) →
  let o := sync_ldap_groups rt settings ldap_groups db in
  (length (created_groups (out_events o)) ≤ 1)%nat
  ∧ (length (groups (out_db o)) ≤ S (length (groups db)))%nat.
Proof.
  intros Hrefl o. subst o. unfold sync_ldap_groups.
  pose proof (for_each_group_creates_once rt settings ldap_groups db Hrefl)
    as Hloop. cbv zeta in Hloop.
  destruct (out_result (for_each ldap_groups (sync_ldap_group rt settings) db))
    as [e|[]] eqn:Hres.
  - rewrite (bind_inl _ _ _ _ Hres). outcome_simpl.
    destruct Hloop as [[-> ->] | (r & g & -> & ->)]; simpl.
    + lia.
    + rewrite length_app. simpl. lia.
  - rewrite (bind_inr _ _ _ _ Hres). outcome_simpl.
    rewrite created_groups_app. cbn [logger emit out_events out_db].
    destruct Hloop as [[-> ->] | (r & g & -> & ->)]; simpl.
    + lia.
    + rewrite length_app. simpl. lia.
Qed.

(** ** The mapped record of a user *)

(** A loop that sets one key per item, or raises. *)
Lemma fold_exn_inserts (items : list (string * string))
    (value : string → option ustr) (error : string → Exn)
    (body : Fields → string * string → Exn + Fields) :
  (∀ s item, body s item = match value item.1 with
                           | Some v => inr (<[item.2 := v]> s)
                           | None => inl (error item.1)
                           end) →
  ∀ s,
    (is_ok (fold_exn items body s) = true ↔
     ∀ item, item ∈ items → is_Some (value item.1))
    ∧ ∀ d, fold_exn items body s = inr d →
        (∀ field, is_Some (d !! field) ↔
                  is_Some (s !! field) ∨ ∃ k, (k, field) ∈ items)
        ∧ (∀ field v, d !! field = Some v →
                      s !! field = Some v
                      ∨ ∃ k, (k, field) ∈ items ∧ value k = Some v).
Proof.
  intros Hbody. induction items as [|[k f] items IH]; intros s;
    cbn [fold_exn].
  - split.
    + split; [|done]. intros _ item Hin. by apply not_elem_of_nil in Hin.
    + intros d [= <-]. split.
      * intros field. split; [by left|].
        intros [?|(k & Hin)]; [done|]. by apply not_elem_of_nil in Hin.
      * intros field v ?. by left.
  - rewrite Hbody. cbn [fst snd].
    destruct (value k) as [v|] eqn:Hv.
    + destruct (IH (<[f := v]> s)) as (Hok & Hd). split.
      * rewrite Hok. split.
        -- intros H item Hin. apply elem_of_cons in Hin as [-> | Hin];
             [cbn [fst]; rewrite Hv; eauto | by apply H].
        -- intros H item Hin. apply H. by apply list_elem_of_further.
      * intros d Hfold. destruct (Hd d Hfold) as (Hdom & Hval). split.
        -- intros field. rewrite Hdom, lookup_insert_is_Some. split.
           ++ intros [[-> | [_ ?]] | (k' & Hin)].
              ** right. exists k. apply list_elem_of_here.
              ** by left.
              ** right. exists k'. by apply list_elem_of_further.
           ++ intros [Hs | (k' & Hin)].
              ** left. destruct (decide (f = field)); auto.
              ** apply elem_of_cons in Hin as [[= -> ->] | Hin].
                 --- left. by left.
                 --- right. by exists k'.
        -- intros field v' Hlook.
           destruct (Hval field v' Hlook) as [Hs | (k' & Hin & Hk')].
           ++ apply lookup_insert_Some in Hs as [[-> ->] | [_ Hs]].
              ** right. exists k. split; [apply list_elem_of_here | done].
              ** by left.
           ++ right. exists k'. split; [by apply list_elem_of_further | done].
    + split; [|done]. split; [done|].
      intros H. specialize (H (k, f) (list_elem_of_here _ _)).
      cbn [fst] in H. rewrite Hv in H. by destruct H.
Qed.

Lemma user_defaults_body rt attrs (s : Fields) (item : string * string) :
  match attrs !! item.1 with
  | None => inr (<[item.2 := []]> s)
  | Some [] => inl IndexError
  | Some (v :: _) =>
      match decode_utf8 rt v with
      | None => inl UnicodeDecodeError
      | Some u => inr (<[item.2 := u]> s)
      end
  end
  = match mapped_value rt attrs item.1 with
    | Some v => inr (<[item.2 := v]> s)
    | None => inl (match attrs !! item.1 with
                   | Some [] => IndexError
                   | _ => UnicodeDecodeError
                   end)
    end.
Proof.
  unfold mapped_value. by destruct (attrs !! item.1) as [[|v vs]|].
Qed.

Lemma user_defaults_inserts rt settings attrs :
  (is_ok (user_defaults rt settings attrs) = true ↔
   ∀ ldap_name field,
     USER_ATTRIBUTES settings !! ldap_name = Some field →
     is_Some (mapped_value rt attrs ldap_name))
  ∧ ∀ defaults, user_defaults rt settings attrs = inr defaults →
      (∀ field, is_Some (defaults !! field) ↔
                ∃ ldap_name, USER_ATTRIBUTES settings !! ldap_name = Some field)
      ∧ (∀ field v, defaults !! field = Some v →
                    ∃ ldap_name,
                      USER_ATTRIBUTES settings !! ldap_name = Some field
                      ∧ mapped_value rt attrs ldap_name = Some v).
Proof.
  destruct (fold_exn_inserts (map_to_list (USER_ATTRIBUTES settings))
              (mapped_value rt attrs)
              (λ k, match attrs !! k with
                    | Some [] => IndexError
                    | _ => UnicodeDecodeError
                    end)
              _ (user_defaults_body rt attrs) ∅) as (Hok & Hd).
  split.
  - unfold user_defaults. rewrite Hok. split.
    + intros H k f Hk. apply (H (k, f)). by apply elem_of_map_to_list.
    + intros H [k f] Hin. apply (H k f). by apply elem_of_map_to_list.
  - intros defaults Hdefaults. destruct (Hd defaults Hdefaults) as (Hdom & Hval).
    split.
    + intros field. rewrite Hdom. split.
      * intros [Hempty | (k & Hin)].
        -- rewrite lookup_empty in Hempty. by destruct Hempty.
        -- exists k. by apply elem_of_map_to_list.
      * intros (k & Hk). right. exists k. by apply elem_of_map_to_list.
    + intros field v Hlook.
      destruct (Hval field v Hlook) as [Hempty | (k & Hin & Hk)].
      * by rewrite lookup_empty in Hempty.
      * exists k. split; [by apply elem_of_map_to_list | done].
Qed.

(** Lines 79-83 as a whole. The mapping of a user entry succeeds exactly
    when every configured attribute that the entry has carries a first value
    that decodes. The record it gives has exactly the configured fields;
    each holds what one of the attributes configured for it gives, and for
    a field with a single attribute that is the empty string when the entry
    lacks the attribute and the decoding of its first value otherwise
    (further values are ignored). *)
Theorem user_defaults_mapped rt settings attrs :
  (is_ok (user_defaults rt settings attrs) = true ↔
   ∀ ldap_name field,
     USER_ATTRIBUTES settings !! ldap_name = Some field →
     is_Some (mapped_value rt attrs ldap_name))
  ∧ ∀ defaults, user_defaults rt settings attrs = inr defaults →
      (∀ field, is_Some (defaults !! field) ↔
                ∃ ldap_name, USER_ATTRIBUTES settings !! ldap_name = Some field)
      ∧ (∀ field v, defaults !! field = Some v →
                    ∃ ldap_name,
                      USER_ATTRIBUTES settings !! ldap_name = Some field
                      ∧ mapped_value rt attrs ldap_name = Some v)
      ∧ (∀ ldap_name field,
           USER_ATTRIBUTES settings !! ldap_name = Some field →
           (∀ other, USER_ATTRIBUTES settings !! other = Some field →
                     other = ldap_name) →
           defaults !! field = mapped_value rt attrs ldap_name).
Proof.
  destruct (user_defaults_inserts rt settings attrs) as (Hok & Hd).
  split; [exact Hok|].
  intros defaults Hdefaults. destruct (Hd defaults Hdefaults) as (Hdom & Hval).
  split; [exact Hdom|]. split; [exact Hval|].
  intros ldap_name field Hcfg Hone.
  assert (Hsome : is_Some (defaults !! field)) by (apply Hdom; eauto).
  destruct Hsome as [v Hv]. rewrite Hv.
  destruct (Hval field v Hv) as (k & Hk & Hmapped).
  by rewrite <- (Hone k Hk).
Qed.

(** When no attribute is configured for the username field, no user entry
    can be processed: its step raises with nothing written and nothing
    logged, KeyError if the mapping itself went through. *)
Theorem username_field_unmapped rt settings ldap_usernames cname attrs db :
  (∀ ldap_name,
     USER_ATTRIBUTES settings !! ldap_name ≠ Some (USERNAME_FIELD settings)) →
  ∃ e,
    sync_ldap_user rt settings ldap_usernames (cname, Dict attrs) db
      = mkOutcome db [] (inl e)
    ∧ (is_ok (user_defaults rt settings attrs) = true → e = KeyError).
Proof.
  intros Hunmapped. unfold sync_ldap_user. cbn [snd].
  destruct (user_defaults rt settings attrs) as [e|defaults] eqn:Hdefaults.
  { exists e. by rewrite bind_lift_inl. }
  rewrite bind_lift_inr. unfold getitem.
  destruct (defaults !! USERNAME_FIELD settings) as [name|] eqn:Hname.
  - destruct (user_defaults_inserts rt settings attrs) as (_ & Hd).
    destruct (Hd defaults Hdefaults) as (Hdom & _).
    destruct (proj1 (Hdom (USERNAME_FIELD settings))) as (k & Hk); [eauto|].
    by destruct (Hunmapped k).
  - exists KeyError. by rewrite bind_lift_inl.
Qed.

(** ** Exceptions the user sweep does not catch *)

(** An exception that leaves the step of the first entry leaves the sweep:
    the entries after it are not processed and the removal phase is not
    run. *)
Lemma sweep_aborts rt settings entry rest db db' evs e :
  sync_ldap_user rt settings ∅ entry db = mkOutcome db' evs (inl e) →
  sync_ldap_users rt settings (entry :: rest) db = mkOutcome db' evs (inl e).
Proof.
  intros Hstep. unfold sync_ldap_users, confirmed_usernames. cbn [for_fold].
  assert (H1 : out_result (sync_ldap_user rt settings ∅ entry db) = inl e)
    by (by rewrite Hstep).
  rewrite (bind_inl _ _ _ e); rewrite (bind_inl _ _ _ _ H1);
    by rewrite ?Hstep.
Qed.

(** The step of a well-formed entry whose get_or_create returned. *)
Lemma sync_ldap_user_reconciles rt settings cname attrs defaults name
    ldap_usernames db user created :
  user_defaults rt settings attrs = inr defaults →
  defaults !! USERNAME_FIELD settings = Some name →
  out_result (get_or_create rt UserTable (USERNAME_FIELD settings)
                (lower rt name) defaults db) = inr (user, created) →
  sync_ldap_user rt settings ldap_usernames (cname, Dict attrs) db
  = reconcile rt settings ldap_usernames (lower rt name) defaults attrs
      user created
      (out_db (get_or_create rt UserTable (USERNAME_FIELD settings)
                 (lower rt name) defaults db)).
Proof.
  intros Hdefaults Hname Hfound.
  rewrite (sync_ldap_user_step rt settings cname attrs defaults name
             Hdefaults Hname).
  rewrite (bind_attempt _ _ _ _ _ (get_or_create_eta _ _ _ _ _ _)).
  by rewrite Hfound.
Qed.

(** [user.save()] is guarded against IntegrityError only. When it raises
    DataError for the first entry of a sweep, the exception leaves
    [sync_ldap_users]: nothing is logged for it, the store is as the hooks
    left it, and neither the later entries nor the removal phase run. *)
Theorem save_data_error_escapes rt settings cname attrs defaults name db
    user created user' rest :
  user_defaults rt settings attrs = inr defaults →
  defaults !! USERNAME_FIELD settings = Some name →
  let username := lower rt name in
  let found := get_or_create rt UserTable (USERNAME_FIELD settings) username
                 defaults db in
  out_result found = inr (user, created) →
  let cu := if created then (set_unusable_password user, false)
            else update_fields defaults user in
  let chain := run_user_callbacks rt settings attrs created cu.2 cu.1
                 (out_db found) in
  out_result chain = inr user' →
  save_error rt (users (out_db chain)) user' = Some Data →
  sync_ldap_users rt settings ((cname, Dict attrs) :: rest) db
  = mkOutcome (out_db chain)
      (drift_log username created (update_fields defaults user).2
         ++ out_events chain)
      (inl DataError).
Proof.
  intros Hdefaults Hname username found Hfound cu chain Hchain Hsave.
  apply sweep_aborts.
  rewrite (sync_ldap_user_reconciles _ _ _ _ _ _ _ _ _ _
             Hdefaults Hname Hfound).
  rewrite reconcile_run. cbv zeta. fold username found cu. fold chain.
  rewrite Hchain, save_user_run, Hsave. outcome_simpl.
  by rewrite app_nil_r.
Qed.

(** A user-sync hook that raises (or a path that does not import) is not
    guarded at all: for the first entry of a sweep the exception leaves
    [sync_ldap_users] with the store as the hooks left it; the user object
    is not saved, and neither the later entries nor the removal phase
    run. *)
Theorem user_hook_error_escapes rt settings cname attrs defaults name db
    user created e rest :
  user_defaults rt settings attrs = inr defaults →
  defaults !! USERNAME_FIELD settings = Some name →
  let username := lower rt name in
  let found := get_or_create rt UserTable (USERNAME_FIELD settings) username
                 defaults db in
  out_result found = inr (user, created) →
  let cu := if created then (set_unusable_password user, false)
            else update_fields defaults user in
  let chain := run_user_callbacks rt settings attrs created cu.2 cu.1
                 (out_db found) in
  out_result chain = inl e →
  sync_ldap_users rt settings ((cname, Dict attrs) :: rest) db
  = mkOutcome (out_db chain)
      (drift_log username created (update_fields defaults user).2
         ++ out_events chain)
      (inl e).
Proof.
  intros Hdefaults Hname username found Hfound cu chain Hchain.
  apply sweep_aborts.
  rewrite (sync_ldap_user_reconciles _ _ _ _ _ _ _ _ _ _
             Hdefaults Hname Hfound).
  rewrite reconcile_run. cbv zeta. fold username found cu. fold chain.
  by rewrite Hchain.
Qed.

(** Two local users whose usernames match the entry's case-insensitively
    stop the sweep: get_or_create raises MultipleObjectsReturned, which the
    handler for IntegrityError and DataError lets through. Nothing is
    written or logged. *)
Theorem ambiguous_user_aborts_sweep rt settings cname attrs defaults name db
    r1 r2 more rest :
  user_defaults rt settings attrs = inr defaults →
  defaults !! USERNAME_FIELD settings = Some name →
  List.filter (iexact_match rt (USERNAME_FIELD settings) (lower rt name))
    (users db) = r1 :: r2 :: more →
  sync_ldap_users rt settings ((cname, Dict attrs) :: rest) db
  = mkOutcome db [] (inl MultipleObjectsReturned).
Proof.
  intros Hdefaults Hname Hrows. apply sweep_aborts.
  rewrite (sync_ldap_user_step rt settings cname attrs defaults name
             Hdefaults Hname).
  assert (Hrun : get_or_create rt UserTable (USERNAME_FIELD settings)
                   (lower rt name) defaults db
                 = mkOutcome db [] (inl MultipleObjectsReturned)).
  { unfold get_or_create. cbn [table_rows]. by rewrite Hrows. }
  by rewrite (bind_attempt _ _ _ _ _ Hrun).
Qed.

(** ** Order of the user-sync hooks *)

Lemma run_user_callbacks_prefix rt settings attrs created updated user db :
  (call_path <$> user_calls
     (out_events (run_user_callbacks rt settings attrs created updated
                    user db)))
  `prefix_of` USER_CALLBACKS settings.
Proof.
  unfold run_user_callbacks.
  generalize (USER_CALLBACKS settings) as paths.
  intros paths. revert user db.
  induction paths as [|path paths IH]; intros user db; cbn [for_fold].
  { done. }
  pose proof (call_user_callback_run rt attrs created updated user path db)
    as Hrun.
  destruct (import_user_hook rt path) as [hook|].
  - destruct (hook user attrs created updated db) as [db' [e|user']];
      cbn [fst snd] in Hrun.
    + rewrite (bind_inl _ _ _ e) by (by rewrite Hrun). rewrite Hrun.
      outcome_simpl. cbn. apply prefix_cons, prefix_nil.
    + rewrite (bind_inr _ _ _ user') by (by rewrite Hrun). rewrite Hrun.
      outcome_simpl. cbn [app]. change (user_calls (?ev :: ?evs))
        with (user_calls [ev] ++ user_calls evs).
      rewrite fmap_app. cbn. apply prefix_cons, IH.
  - rewrite (bind_inl _ _ _ ImportError) by (by rewrite Hrun).
    rewrite Hrun. outcome_simpl. apply prefix_nil.
Qed.

(** Whatever the entry, the store and the hooks do, the step of an entry
    never calls a user-sync hook out of turn: the hooks it called are an
    initial stretch of USER_CALLBACKS, each called once. *)
Theorem user_hooks_called_in_order rt settings ldap_usernames entry db :
  (call_path <$> user_calls
     (out_events (sync_ldap_user rt settings ldap_usernames entry db)))
  `prefix_of` USER_CALLBACKS settings.
Proof.
  destruct entry as [cname [attrs|]]; [|apply prefix_nil].
  unfold sync_ldap_user. cbn [snd].
  destruct (user_defaults rt settings attrs) as [e|defaults] eqn:Hdefaults.
  { rewrite bind_lift_inl. apply prefix_nil. }
  rewrite bind_lift_inr. unfold getitem.
  destruct (defaults !! USERNAME_FIELD settings) as [name|] eqn:Hname.
  2: { rewrite bind_lift_inl. apply prefix_nil. }
  rewrite bind_lift_inr.
  rewrite (bind_attempt _ _ _ _ _ (get_or_create_eta _ _ _ _ _ _)).
  destruct (out_result (get_or_create _ _ _ _ _ _)) as [e|[user created]].
  - destruct (is_integrity_or_data e); [|apply prefix_nil].
    rewrite bind_logger. apply prefix_nil.
  - match goal with
    | |- context [reconcile ?a ?b ?c ?d ?e ?f ?g ?h ?i] =>
        destruct (reconcile_calls a b c d e f g h i) as [-> _]
    end.
    apply run_user_callbacks_prefix.
Qed.

(** ** The confirmed set from the other side *)

(** Nothing enters the confirmed set but the lower-cased username of a
    well-formed entry of the sweep: entries whose attributes are not a
    dictionary never do. *)
Theorem confirmed_set_sound rt settings entries db S username :
  out_result (confirmed_usernames rt settings entries db) = inr S →
  username ∈ S →
  ∃ cname attrs defaults name,
    (cname, Dict attrs) ∈ entries
    ∧ user_defaults rt settings attrs = inr defaults
    ∧ defaults !! USERNAME_FIELD settings = Some name
    ∧ username = lower rt name.
Proof.
  unfold confirmed_usernames.
  assert (Hgen : ∀ S0 db,
    out_result (for_fold entries (sync_ldap_user rt settings) S0 db) = inr S →
    username ∈ S →
    username ∈ S0 ∨
    ∃ cname attrs defaults name,
      (cname, Dict attrs) ∈ entries
      ∧ user_defaults rt settings attrs = inr defaults
      ∧ defaults !! USERNAME_FIELD settings = Some name
      ∧ username = lower rt name).
  { clear db. induction entries as [|[cname [attrs|]] rest IH]; intros S0 db;
      cbn [for_fold].
    - intros [= <-] Hin. by left.
    - intros Hloop Hin. apply bind_ok_inv in Hloop as (S1 & H1 & H2).
      destruct (IH _ _ H2 Hin) as [Hin1 | (c & a & d & n & Hmem & Hrest)].
      + destruct (sync_ldap_user_returns _ _ _ _ _ _ _ H1)
          as (defaults & name & Hd & Hn).
        destruct (sync_ldap_user_confirms _ _ _ _ _ _ _ _ _ Hd Hn H1)
          as [-> | [-> _]]; [|by left].
        unfold confirm in Hin1. destruct (truthy _); [|by left].
        apply elem_of_union in Hin1 as [Hnew | Hold]; [|by left].
        apply elem_of_singleton in Hnew. right.
        exists cname, attrs, defaults, name.
        split; [apply list_elem_of_here | done].
      + right. exists c, a, d, n. split; [by apply list_elem_of_further|done].
    - change (sync_ldap_user rt settings S0 (cname, NotDict)) with (ret S0).
      rewrite bind_ret. intros Hloop Hin.
      destruct (IH _ _ Hloop Hin) as [? | (c & a & d & n & Hmem & Hrest)];
        [by left|].
      right. exists c, a, d, n. split; [by apply list_elem_of_further|done]. }
  intros Hloop Hin. destruct (Hgen ∅ db Hloop Hin) as [Hempty | H]; [|done].
  by apply not_elem_of_empty in Hempty.
Qed.

Lemma removed_calls_none evs : Forall not_removal evs → removed_calls evs = [].
Proof.
  induction 1 as [|ev evs Hev _ IH]; [done|].
  destruct ev; try done; exact IH.
Qed.

Lemma called_for_none evs : Forall not_removal evs → called_for evs = [].
Proof.
  induction 1 as [|ev evs Hev _ IH]; [done|].
  destruct ev as [[] []| | | |]; try done; exact IH.
Qed.

(** With no removal hooks configured the user sweep does no removal work:
    the confirmed set stays empty, no hook is called and no call is
    logged. *)
Theorem no_removal_hooks_no_removal rt settings entries db :
  REMOVED_USER_CALLBACKS settings = [] →
  (∀ S, out_result (confirmed_usernames rt settings entries db) = inr S →
        S = ∅)
  ∧ removed_calls (out_events (sync_ldap_users rt settings entries db)) = []
  ∧ called_for (out_events (sync_ldap_users rt settings entries db)) = [].
Proof.
  intros Hnone. split.
  - unfold confirmed_usernames. generalize (∅ : gset ustr) as S0.
    revert db. induction entries as [|[cname [attrs|]] rest IH];
      intros db S0 S; cbn [for_fold].
    + by intros [= <-].
    + intros Hloop. apply bind_ok_inv in Hloop as (S1 & H1 & H2).
      destruct (sync_ldap_user_returns _ _ _ _ _ _ _ H1)
        as (defaults & name & Hd & Hn).
      destruct (sync_ldap_user_confirms _ _ _ _ _ _ _ _ _ Hd Hn H1)
        as [-> | [-> _]]; [|by eapply IH].
      unfold confirm in H2. rewrite Hnone in H2. by eapply IH.
    + change (sync_ldap_user rt settings S0 (cname, NotDict)) with (ret S0).
      rewrite bind_ret. apply IH.
  - assert (H : emits_only not_removal (sync_ldap_users rt settings entries)).
    { unfold sync_ldap_users, confirmed_usernames, sync_ldap_user,
        removed_users, reconcile, run_user_callbacks, created_or_updated,
        save_user, call_user_callback.
      rewrite Hnone. cbn [truthy]. emits. }
    split; [apply removed_calls_none | apply called_for_none]; apply H.
Qed.

(** ** Drift, once applied *)

Lemma row_eq (r1 r2 : Row) :
  pk r1 = pk r2 → fields r1 = fields r2 →
  unusable_password r1 = unusable_password r2 → r1 = r2.
Proof. destruct r1, r2. simpl. by intros -> -> ->. Qed.

(** The comparison of lines 101-105 settles: on the object it has just
    updated it finds nothing to update and changes nothing, and when it
    reports no update it has left the object as it was. *)
Theorem update_fields_settles defaults user :
  let r := update_fields defaults user in
  update_fields defaults r.1 = (r.1, false)
  ∧ (r.2 = false → r.1 = user).
Proof.
  intros r.
  destruct (update_fields_spec defaults user) as (Hpk & Hpw & Hf & Hflag).
  fold r in Hpk, Hpw, Hf, Hflag.
  destruct (update_fields_spec defaults r.1) as (Hpk2 & Hpw2 & Hf2 & Hflag2).
  split.
  - destruct (update_fields defaults r.1) as [user2 flag2].
    cbn [fst snd] in *. f_equal.
    + apply row_eq; [done| |done].
      by rewrite Hf2, Hf, (assoc_L (∪)), (idemp_L (∪)).
    + destruct flag2; [|done].
      destruct (proj1 Hflag2 eq_refl) as (field & attr & Hd & Hne).
      destruct Hne. rewrite Hf. by apply lookup_union_Some_l.
  - intros Hno. apply row_eq; [done| |done].
    rewrite Hf. apply map_eq. intros field.
    destruct (defaults !! field) as [attr|] eqn:Hd.
    + rewrite (lookup_union_Some_l _ _ _ _ Hd).
      destruct (decide (fields user !! field = Some attr)) as [->|Hne];
        [done|].
      assert (r.2 = true) by (apply Hflag; eauto). congruence.
    + by rewrite lookup_union_r.
Qed.

(** ** A user seen for the first time *)

Lemma store_row_last r r' rows :
  pk r = pk r' →
  Forall (λ x, pk x ≠ pk r') rows →
  store_row r' (rows ++ [r]) = rows ++ [r'].
Proof.
  intros Hpk. induction 1 as [|x rows Hx _ IH]; simpl.
  - by rewrite decide_True.
  - by rewrite decide_False, IH.
Qed.

(** An entry that matches no local user, in a sweep without user-sync
    hooks: the user is inserted with the mapped record as it is (the
    username in the directory's case), marked as having no usable password
    and saved; one creation is logged. Primary keys in the table are taken
    to be older than the next one. *)
Theorem new_user_is_created_unusable rt settings cname attrs defaults name
    ldap_usernames db :
  user_defaults rt settings attrs = inr defaults →
  defaults !! USERNAME_FIELD settings = Some name →
  List.filter (iexact_match rt (USERNAME_FIELD settings) (lower rt name))
    (users db) = [] →
  insert_error rt UserTable (users db) defaults = None →
  USER_CALLBACKS settings = [] →
  Forall (λ r, pk r ≠ next_pk db) (users db) →
  save_error rt (users db ++ [mkRow (next_pk db) defaults false])
    (mkRow (next_pk db) defaults true) = None →
  sync_ldap_user rt settings ldap_usernames (cname, Dict attrs) db
  = mkOutcome
      (mkDb (groups db) (users db ++ [mkRow (next_pk db) defaults true])
         (S (next_pk db)))
      [Log DEBUG (CreatedUser (lower rt name))]
      (inr (confirm settings (lower rt name) ldap_usernames)).
Proof.
  intros Hdefaults Hname Hrows Hins Hhooks Hfresh Hsave.
  rewrite (sync_ldap_user_inserted rt settings cname attrs defaults name
             Hdefaults Hname _ _ Hrows Hins).
  rewrite reconcile_run. cbv zeta. unfold run_user_callbacks.
  rewrite Hhooks. cbn [for_fold ret out_result out_db out_events fst snd].
  rewrite save_user_run. cbn [add_row users groups next_pk].
  unfold set_unusable_password. cbn [pk fields].
  rewrite Hsave. outcome_simpl. cbn [users groups next_pk drift_log app].
  by rewrite (store_row_last (mkRow (next_pk db) defaults false)).
Qed.

(** ** A group that cannot be created *)

(** When the store refuses the group (IntegrityError or DataError on the
    insert), group sync logs the error once for every well-formed entry,
    writes nothing, and still ends normally with its closing record: one
    entry's failure does not stop the sweep. *)
Theorem group_create_error_isolated rt settings ldap_groups db defaults
    groupname e :
  group_defaults rt settings ∅ = inr defaults →
  defaults !! GROUPNAME_FIELD settings = Some groupname →
  List.filter (iexact_match rt (GROUPNAME_FIELD settings) groupname)
    (groups db) = [] →
  insert_error rt GroupTable (groups db) defaults = Some e →
  sync_ldap_groups rt settings ldap_groups db
  = mkOutcome db
      (((λ _, Log ERROR (ErrorCreatingGroup groupname (db_exn e)))
          <$> List.filter is_dict ldap_groups)
         ++ [Log INFO GroupsSynchronized])
      (inr tt).
Proof.
  intros Hdefaults Hname Hrows Hins.
  assert (Hstep : group_step rt settings db
                  = mkOutcome db
                      [Log ERROR (ErrorCreatingGroup groupname (db_exn e))]
                      (inr tt)).
  { unfold group_step, sync_ldap_group. cbn [snd].
    rewrite Hdefaults, bind_lift_inr. unfold getitem.
    rewrite Hname, bind_lift_inr.
    rewrite (bind_attempt _ _ _ _ _
               (get_or_create_rejected rt GroupTable _ _ _ _ _ Hrows Hins)).
    by destruct e. }
  assert (Hloop : for_each ldap_groups (sync_ldap_group rt settings) db
                  = mkOutcome db
                      ((λ _, Log ERROR (ErrorCreatingGroup groupname
                                          (db_exn e)))
                         <$> List.filter is_dict ldap_groups)
                      (inr tt)).
  { induction ldap_groups as [|[cname [attrs|]] rest IH];
      cbn [for_each List.filter is_dict snd].
    - done.
    - rewrite (bind_cong _ (group_step rt settings) _ db) by done.
      rewrite (bind_inr _ _ _ tt) by (by rewrite Hstep).
      rewrite Hstep. outcome_simpl. by rewrite IH.
    - change (sync_ldap_group rt settings (cname, NotDict)) with (ret tt).
      by rewrite bind_ret. }
  unfold sync_ldap_groups.
  rewrite (bind_inr _ _ _ tt) by (by rewrite Hloop).
  by rewrite Hloop.
Qed.

(** ** The searches of a run *)

Lemma searches_app evs1 evs2 :
  searches (evs1 ++ evs2) = searches evs1 ++ searches evs2.
Proof. apply omap_app. Qed.

Lemma searches_none evs : Forall not_search evs → searches evs = [].
Proof.
  induction 1 as [|ev evs Hev _ IH]; [done|].
  destruct ev; try done; exact IH.
Qed.

Lemma sync_ldap_groups_no_search rt settings ldap_groups :
  emits_only not_search (sync_ldap_groups rt settings ldap_groups).
Proof. unfold sync_ldap_groups, sync_ldap_group. emits. Qed.

Lemma sync_ldap_users_no_search rt settings ldap_users :
  emits_only not_search (sync_ldap_users rt settings ldap_users).
Proof.
  unfold sync_ldap_users, confirmed_usernames, sync_ldap_user, removed_users,
    removed_user, reconcile, run_user_callbacks, created_or_updated, save_user,
    call_user_callback, call_removed_callback.
  emits.
Qed.

(** A search followed by a phase that searches nothing. *)
Lemma phase_searches {A} rt filter attributes (phase : list Entry → M A) db :
  (∀ entries, emits_only not_search (phase entries)) →
  searches (out_events (bind (search rt filter attributes) phase db))
  = [(filter, attributes)].
Proof.
  intros Hphase. unfold search. rewrite bind_assoc, bind_emit.
  unfold prepend. outcome_simpl.
  change (searches (?ev :: ?evs)) with (searches [ev] ++ searches evs).
  rewrite (searches_none (out_events _)); [done|].
  apply emits_bind; [apply emits_lift | exact Hphase].
Qed.

(** What [handle] asks of the directory: at most one search per configured
    filter, the group search first, for the keys of GROUP_ATTRIBUTES, then
    the user search, for the keys of USER_ATTRIBUTES followed by
    USER_EXTRA_ATTRIBUTES. A filter that is empty is not searched. A run
    that returns has made exactly these searches; one that raises made an
    initial stretch of them, and when it is the group search that raises
    nothing else happens at all. *)
Theorem handle_searches rt settings db :
  let o := handle rt settings db in
  let wanted :=
    (if truthy_str (GROUP_FILTER settings)
     then [(GROUP_FILTER settings, keys (GROUP_ATTRIBUTES settings))]
     else [])
    ++ (if truthy_str (USER_FILTER settings)
        then [(USER_FILTER settings,
               keys (USER_ATTRIBUTES settings)
                 ++ USER_EXTRA_ATTRIBUTES settings)]
        else []) in
  searches (out_events o) `prefix_of` wanted
  ∧ (is_ok (out_result o) = true → searches (out_events o) = wanted)
  ∧ (∀ e, truthy_str (GROUP_FILTER settings) = true →
          ldap_search rt (GROUP_FILTER settings)
            (keys (GROUP_ATTRIBUTES settings)) = inl e →
          o = mkOutcome db
                [Search (GROUP_FILTER settings)
                   (keys (GROUP_ATTRIBUTES settings))]
                (inl e)).
Proof.
  intros o wanted. subst o wanted. unfold handle.
  set (first := if truthy_str (GROUP_FILTER settings)
                then bind (search rt (GROUP_FILTER settings)
                             (keys (GROUP_ATTRIBUTES settings)))
                       (sync_ldap_groups rt settings)
                else ret tt).
  set (second := if truthy_str (USER_FILTER settings)
                 then bind (search rt (USER_FILTER settings)
                              (keys (USER_ATTRIBUTES settings)
                                 ++ USER_EXTRA_ATTRIBUTES settings))
                        (sync_ldap_users rt settings)
                 else ret tt).
  assert (H1 : ∀ db',
    searches (out_events (first db'))
    = if truthy_str (GROUP_FILTER settings)
      then [(GROUP_FILTER settings, keys (GROUP_ATTRIBUTES settings))]
      else []).
  { intros db'. subst first. destruct (truthy_str (GROUP_FILTER settings)).
    - apply phase_searches, sync_ldap_groups_no_search.
    - done. }
  assert (H2 : ∀ db',
    searches (out_events (second db'))
    = if truthy_str (USER_FILTER settings)
      then [(USER_FILTER settings,
             keys (USER_ATTRIBUTES settings)
               ++ USER_EXTRA_ATTRIBUTES settings)]
      else []).
  { intros db'. subst second. destruct (truthy_str (USER_FILTER settings)).
    - apply phase_searches, sync_ldap_users_no_search.
    - done. }
  split; [|split].
  - destruct (out_result (first db)) as [e|[]] eqn:Hfirst.
    + rewrite (bind_inl _ _ _ _ Hfirst). outcome_simpl. rewrite H1.
      by apply prefix_app_r.
    + rewrite (bind_inr _ _ _ _ Hfirst). outcome_simpl.
      rewrite searches_app, H1. apply prefix_app.
      destruct (out_result (second (out_db (first db)))) as [e|[]] eqn:Hsecond.
      * rewrite (bind_inl _ _ _ _ Hsecond). outcome_simpl. by rewrite H2.
      * rewrite (bind_inr _ _ _ _ Hsecond). outcome_simpl.
        rewrite searches_app, H2. cbn. by rewrite app_nil_r.
  - destruct (out_result (first db)) as [e|[]] eqn:Hfirst.
    + by rewrite (bind_inl _ _ _ _ Hfirst).
    + rewrite (bind_inr _ _ _ _ Hfirst). outcome_simpl.
      destruct (out_result (second (out_db (first db)))) as [e|[]] eqn:Hsecond.
      * by rewrite (bind_inl _ _ _ _ Hsecond).
      * rewrite (bind_inr _ _ _ _ Hsecond). outcome_simpl. intros _.
        rewrite !searches_app, H1, H2. cbn. by rewrite app_nil_r.
  - intros e Hfilter Hsearch.
    assert (Hfirst : first db
                     = mkOutcome db
                         [Search (GROUP_FILTER settings)
                            (keys (GROUP_ATTRIBUTES settings))]
                         (inl e)).
    { subst first. rewrite Hfilter. unfold search.
      rewrite bind_assoc, bind_emit, Hsearch. by rewrite bind_lift_inl. }
    rewrite (bind_inl _ _ _ e) by (by rewrite Hfirst). by rewrite Hfirst.
Qed.

(** ** Runs of the further properties *)

(** A full run against the office directory, with [bob] in the store. *)
Lemma handle_without_hooks_keeps_rows_witness :
  let rt := reference_runtime office_directory no_user_hooks removed_hooks in
  let o := handle rt plain_settings bob_db in
  USER_CALLBACKS plain_settings = []
  ∧ REMOVED_USER_CALLBACKS plain_settings = []
  ∧ groups bob_db `prefix_of` groups (out_db o)
  ∧ (pk <$> users bob_db) `prefix_of` (pk <$> users (out_db o)).
Proof.
  intros rt o. split; [done|]. split; [done|].
  exact (handle_without_hooks_keeps_rows rt plain_settings bob_db
           eq_refl eq_refl).
Defined.

(** Two groups in the directory, one group created. *)
Lemma sync_ldap_groups_creates_at_most_one_witness :
  let o := sync_ldap_groups plain_runtime group_settings [admins; staff]
             empty_db in
  created_groups (out_events o) = [uni "n"]
  ∧ (length (created_groups (out_events o)) ≤ 1)%nat
  ∧ (length (groups (out_db o)) ≤ S (length (groups empty_db)))%nat.
Proof.
  intros o. split; [by vm_compute|].
  exact (sync_ldap_groups_creates_at_most_one plain_runtime group_settings
           [admins; staff] empty_db iexact_ascii_refl).
Defined.

(** The mapped record of [JDoe]: the e-mail field is the decoding of the
    first value of [mail]. *)
Lemma user_defaults_mapped_witness :
  user_defaults plain_runtime user_settings jdoe_attributes = inr jdoe_defaults
  ∧ jdoe_defaults !! "email" = Some (uni "jdoe@example.com").
Proof.
  assert (H1 : user_defaults plain_runtime user_settings jdoe_attributes
               = inr jdoe_defaults) by (by vm_compute).
  split; [exact H1|].
  destruct (user_defaults_mapped plain_runtime user_settings jdoe_attributes)
    as (_ & Hd).
  destruct (Hd jdoe_defaults H1) as (_ & _ & Hone).
  rewrite (Hone "mail" "email"); [by vm_compute | by vm_compute |].
  intros other Hother. cbn [user_settings USER_ATTRIBUTES] in Hother.
  apply lookup_insert_Some in Hother as [[_ [=]] | [_ Hother]].
  by apply lookup_singleton_Some in Hother as [<- _].
Defined.

(** No attribute is configured for [username]: KeyError. *)
Lemma username_field_unmapped_witness :
  sync_ldap_user plain_runtime mail_only_settings ∅
    ("uid=JDoe,dc=example", Dict jdoe_attributes) empty_db
  = mkOutcome empty_db [] (inl KeyError).
Proof.
  destruct (username_field_unmapped plain_runtime mail_only_settings ∅
              "uid=JDoe,dc=example" jdoe_attributes empty_db)
    as (e & Hstep & He).
  - intros ldap_name H. cbn [mail_only_settings USER_ATTRIBUTES USERNAME_FIELD]
      in H.
    by apply lookup_singleton_Some in H as [_ [=]].
  - rewrite Hstep, He; [done | by vm_compute].
Defined.

(** The hook gives [bob] a title too long for its column. *)
Lemma save_data_error_escapes_witness :
  sync_ldap_users more_runtime title_settings
    [("uid=bob,dc=example", Dict bob_attributes); jdoe] empty_db
  = mkOutcome (mkDb [] [mkRow 1 bob_defaults false] 2)
      [Log DEBUG (CreatedUser (uni "bob"));
       UserCallback "hooks.long_title" (mkRow 1 bob_defaults true)
         bob_attributes true false]
      (inl DataError).
Proof.
  rewrite (save_data_error_escapes more_runtime title_settings
             "uid=bob,dc=example" bob_attributes bob_defaults (uni "bob")
             empty_db (mkRow 1 bob_defaults false) true
             (setattr (mkRow 1 bob_defaults true) "title"
                (uni "Senior Directory Administrator.")) [jdoe]).
  - by vm_compute.
  - by vm_compute.
  - by vm_compute.
  - by vm_compute.
  - by vm_compute.
  - by vm_compute.
Defined.

(** The first hook raises: the second is not called, [bob] is not saved. *)
Lemma user_hook_error_escapes_witness :
  sync_ldap_users more_runtime failing_settings
    [("uid=bob,dc=example", Dict bob_attributes); jdoe] empty_db
  = mkOutcome (mkDb [] [mkRow 1 bob_defaults false] 2)
      [Log DEBUG (CreatedUser (uni "bob"));
       UserCallback "hooks.fail" (mkRow 1 bob_defaults true)
         bob_attributes true false]
      (inl (HookError "unreachable mail server")).
Proof.
  rewrite (user_hook_error_escapes more_runtime failing_settings
             "uid=bob,dc=example" bob_attributes bob_defaults (uni "bob")
             empty_db (mkRow 1 bob_defaults false) true
             (HookError "unreachable mail server") [jdoe]).
  - by vm_compute.
  - by vm_compute.
  - by vm_compute.
  - by vm_compute.
  - by vm_compute.
Defined.

(** [Bob] and [bob] are both in the store. *)
Lemma ambiguous_user_aborts_sweep_witness :
  sync_ldap_users plain_runtime user_settings
    [("uid=bob,dc=example", Dict bob_attributes); jdoe] bobs_db
  = mkOutcome bobs_db [] (inl MultipleObjectsReturned).
Proof.
  apply (ambiguous_user_aborts_sweep plain_runtime user_settings
           "uid=bob,dc=example" bob_attributes bob_defaults (uni "bob")
           bobs_db (mkRow 1 {[ "username" := uni "Bob" ]} false)
           (mkRow 2 {[ "username" := uni "bob" ]} false) [] [jdoe]).
  - by vm_compute.
  - by vm_compute.
  - by vm_compute.
Defined.

(** A referral and [JDoe]: the one confirmed name comes from [JDoe]. *)
Lemma confirmed_set_sound_witness :
  out_result (confirmed_usernames plain_runtime user_settings
                [("referral", NotDict); jdoe] empty_db)
  = inr {[ uni "jdoe" ]}
  ∧ ∃ cname attrs defaults name,
      (cname, Dict attrs) ∈ [("referral", NotDict); jdoe]
      ∧ user_defaults plain_runtime user_settings attrs = inr defaults
      ∧ defaults !! USERNAME_FIELD user_settings = Some name
      ∧ uni "jdoe" = lower plain_runtime name.
Proof.
  assert (H1 : out_result (confirmed_usernames plain_runtime user_settings
                             [("referral", NotDict); jdoe] empty_db)
               = inr {[ uni "jdoe" ]}) by (by vm_compute).
  split; [exact H1|].
  apply (confirmed_set_sound plain_runtime user_settings
           [("referral", NotDict); jdoe] empty_db {[ uni "jdoe" ]}
           (uni "jdoe") H1).
  by apply elem_of_singleton.
Defined.

(** No removal hooks: [bob], whom the directory does not have, is left
    alone. *)
Lemma no_removal_hooks_no_removal_witness :
  REMOVED_USER_CALLBACKS plain_settings = []
  ∧ removed_calls
      (out_events (sync_ldap_users plain_runtime plain_settings [jdoe] bob_db))
    = [].
Proof.
  split; [done|].
  exact (proj1 (proj2 (no_removal_hooks_no_removal plain_runtime plain_settings
                         [jdoe] bob_db eq_refl))).
Defined.

(** A row that already holds the mapped record is left as it is. *)
Lemma update_fields_settles_witness :
  (update_fields bob_defaults (mkRow 1 bob_defaults true)).2 = false
  ∧ (update_fields bob_defaults (mkRow 1 bob_defaults true)).1
    = mkRow 1 bob_defaults true.
Proof.
  assert (H1 : (update_fields bob_defaults (mkRow 1 bob_defaults true)).2
               = false) by (by vm_compute).
  split; [exact H1|].
  exact (proj2 (update_fields_settles bob_defaults (mkRow 1 bob_defaults true))
           H1).
Defined.

(** [JDoe] on an empty store. *)
Lemma new_user_is_created_unusable_witness :
  sync_ldap_user plain_runtime user_settings ∅
    ("uid=JDoe,dc=example", Dict jdoe_attributes) empty_db
  = mkOutcome (mkDb [] [mkRow 1 jdoe_defaults true] 2)
      [Log DEBUG (CreatedUser (uni "jdoe"))]
      (inr {[ uni "jdoe" ]}).
Proof.
  rewrite (new_user_is_created_unusable plain_runtime user_settings
             "uid=JDoe,dc=example" jdoe_attributes jdoe_defaults (uni "JDoe")
             ∅ empty_db).
  - by vm_compute.
  - by vm_compute.
  - by vm_compute.
  - by vm_compute.
  - by vm_compute.
  - done.
  - constructor.
  - by vm_compute.
Defined.

(** Two groups in the directory and a store that takes none. *)
Lemma group_create_error_isolated_witness :
  sync_ldap_groups closed_runtime group_settings
    [admins; ("referral", NotDict); staff] empty_db
  = mkOutcome empty_db
      [Log ERROR (ErrorCreatingGroup (uni "n") IntegrityError);
       Log ERROR (ErrorCreatingGroup (uni "n") IntegrityError);
       Log INFO GroupsSynchronized]
      (inr tt).
Proof.
  rewrite (group_create_error_isolated closed_runtime group_settings
             [admins; ("referral", NotDict); staff] empty_db
             {[ "name" := uni "n" ]} (uni "n") Integrity).
  - by vm_compute.
  - by vm_compute.
  - by vm_compute.
  - by vm_compute.
  - by vm_compute.
Defined.

(** The directory is down: one search, nothing else. *)
Lemma handle_searches_witness :
  let rt := reference_runtime down_directory no_user_hooks removed_hooks in
  handle rt plain_settings bob_db
  = mkOutcome bob_db [Search "(objectClass=group)" ["cn"]] (inl LDAPError).
Proof.
  intros rt.
  destruct (handle_searches rt plain_settings bob_db) as (_ & _ & Hdown).
  rewrite (Hdown LDAPError); [by vm_compute | done | done].
Defined.

(** ** The removal phase and the store *)

(** The removal phase reads the store and calls the hooks; it writes
    nothing itself. When the configured hooks leave the store alone, so does
    the whole phase, however it ends. *)
Theorem removal_phase_writes_nothing rt settings ldap_usernames db :
  (∀ path hook user db',
     import_removed_hook rt path = Some hook → (hook user db').1 = db') →
  out_db (removed_users rt settings ldap_usernames db) = db.
Proof.
  intros Hhooks.
  assert (H : changes_by eq (removed_users rt settings ldap_usernames)).
  { unfold removed_users, removed_user. changes.
    unfold call_removed_callback.
    match goal with
    | |- context [import_removed_hook rt ?path] =>
        destruct (import_removed_hook rt path) as [hook|] eqn:Himport
    end; [|apply changes_raise; typeclasses eauto].
    changes. intros db'. symmetry. exact (Hhooks _ _ _ _ Himport). }
  symmetry. exact (H db).
Qed.

(** Three local users, one of them unconfirmed, and hooks that only
    notify. *)
Lemma removal_phase_writes_nothing_witness :
  out_db (removed_users plain_runtime removal_settings
            {[ uni "a"; uni "b" ]} abc_db) = abc_db.
Proof.
  apply (removal_phase_writes_nothing plain_runtime removal_settings).
  intros path hook user db' Himport.
  cbn [plain_runtime reference_runtime import_removed_hook] in Himport.
  unfold removed_hooks in Himport.
  repeat case_decide; by simplify_eq.
Defined.
